(** * VLA-SMILES descriptors: a shallow embedding of [smiles_to_vla_smiles.py]

    The development follows the source file function by function:
    [smiles_to_binary], [find_divisors], [transform_to_vla] and the core of
    [process_smiles_file].  Python values are modelled as follows.

    - [int] is [Z] (Python integers are unbounded).
    - [str] is a list of Unicode code points, each an [N].
    - A raised exception is a value of [exn]; a computation that may raise
      has type [result A].
    - The [numpy] array built by [np.zeros] has dtype [float64].  Every value
      this program stores in it is an integer, so a cell is modelled by the
      integer that the stored double denotes; storing a Python [int] goes
      through [float_of_int], the correctly rounded conversion. *)

From stdpp Require Import base tactics option list list_numbers numbers sorting.

Local Open Scope Z_scope.

(** ** Exceptions and the error monad *)

Inductive exn : Set :=
  | IndexError
  | ValueError
  | ZeroDivisionError
  | OverflowError.

Inductive result (A : Type) : Type :=
  | Ok (a : A)
  | Err (e : exn).
Arguments Ok {A} a.
Arguments Err {A} e.

#[global] Instance exn_eq_dec : EqDecision exn.
Proof. solve_decision. Defined.

#[global] Instance result_ret : MRet result := λ A a, Ok a.
#[global] Instance result_bind : MBind result := λ A B f m,
  match m with
  | Ok a => f a
  | Err e => Err e
  end.

#[global] Instance result_fmap : FMap result := λ A B f m,
  match m with
  | Ok a => Ok (f a)
  | Err e => Err e
  end.

Definition is_Ok {A} (r : result A) : Prop := ∃ a, r = Ok a.

(** A [for] loop whose body may raise: the state is threaded through the
    iterations and the first exception aborts the loop. *)
Fixpoint for_each {S X} (body : S → X → result S) (xs : list X) (s : S)
  : result S :=
  match xs with
  | [] => Ok s
  | x :: xs' => s' ← body s x; for_each body xs' s'
  end.

(** ** Python builtins used by the program *)

Abbreviation char := N.
Abbreviation str := (list char).

Definition chr_0 : char := 48%N.
Definition chr_1 : char := 49%N.
Definition chr_minus : char := 45%N.

Definition ord (c : char) : Z := Z.of_N c.

Definition len {A} (l : list A) : Z := Z.of_nat (length l).

(** [range(lo, hi)] *)
Definition range (lo hi : Z) : list Z := seqZ lo (hi - lo).

(** [s * n] on strings: a non-positive count gives the empty string. *)
Definition str_mul (s : str) (n : Z) : str :=
  mjoin (replicate (Z.to_nat n) s).

(** [l[i]], with Python's negative indices. *)
Definition getitem {A} (l : list A) (i : Z) : result A :=
  let j := if bool_decide (i < 0) then i + len l else i in
  if bool_decide (0 ≤ j < len l) then
    match l !! Z.to_nat j with
    | Some x => Ok x
    | None => Err IndexError
    end
  else Err IndexError.

(** [max(xs)]: [ValueError] on an empty sequence. *)
Definition py_max (xs : list Z) : result Z :=
  match xs with
  | [] => Err ValueError
  | x :: xs' => Ok (foldl Z.max x xs')
  end.

(** [sum(xs)] *)
Definition py_sum (xs : list Z) : Z := foldl Z.add 0 xs.

(** [a // b] *)
Definition floordiv (a b : Z) : result Z :=
  if bool_decide (b = 0) then Err ZeroDivisionError else Ok (a `div` b).

(** Binary digits of a positive number, most significant first. *)
Fixpoint bin_pos (p : positive) (acc : str) : str :=
  match p with
  | xH => chr_1 :: acc
  | xO q => bin_pos q (chr_0 :: acc)
  | xI q => bin_pos q (chr_1 :: acc)
  end.

Definition bin_digits (n : Z) : str :=
  match n with
  | Zpos p => bin_pos p []
  | _ => [chr_0]
  end.

(** [f'{n:08b}']: binary digits, zero-padded on the left to a minimum width
    of 8; the sign, when there is one, comes first and counts in the width. *)
Definition format_08b (n : Z) : str :=
  if bool_decide (n < 0) then
    let d := bin_digits (- n) in
    chr_minus :: replicate (7 - length d)%nat chr_0 ++ d
  else
    let d := bin_digits n in
    replicate (8 - length d)%nat chr_0 ++ d.

(** Code points of the digit zero of every Unicode decimal-digit block
    (Unicode 14.0, the table of CPython 3.11); each block holds the ten
    digits 0..9 in order.  [int] accepts exactly these characters. *)
Definition decimal_zeros : list N :=
  [48; 1632; 1776; 1984; 2406; 2534; 2662; 2790; 2918; 3046; 3174; 3302;
   3430; 3558; 3664; 3792; 3872; 4160; 4240; 6112; 6160; 6470; 6608; 6784;
   6800; 6992; 7088; 7232; 7248; 42528; 43216; 43264; 43472; 43504; 43600;
   44016; 65296; 66720; 68912; 69734; 69872; 69942; 70096; 70384; 70736;
   70864; 71248; 71360; 71472; 71904; 72016; 72784; 73040; 73120; 92768;
   92864; 93008; 120782; 120792; 120802; 120812; 120822; 123200; 123632;
   125264; 130032]%N.

(** [int(c)] for a one-character string [c]. *)
Definition py_int (c : char) : result Z :=
  match List.find (λ z, (z <=? c)%N && (c <? z + 10)%N) decimal_zeros with
  | Some z => Ok (Z.of_N (c - z))
  | None => Err ValueError
  end.

(** Conversion of a Python [int] to a [float64], as done when an [int] is
    stored in a [float64] array: round to nearest, ties to even, on a 53-bit
    significand; [OverflowError] when the rounded value is beyond the
    largest finite double.  The result is the integer the double denotes. *)
Definition float_of_int (n : Z) : result Z :=
  let a := Z.abs n in
  let e := Z.log2 a - 52 in
  if bool_decide (e ≤ 0) then Ok n
  else
    let q := a ≫ e in
    let r := a - q ≪ e in
    let half := 2 ^ (e - 1) in
    let q' := if bool_decide (half < r ∨ (r = half ∧ Z.odd q = true))
              then q + 1 else q in
    let v := q' ≪ e in
    if bool_decide (2 ^ 1024 ≤ v) then Err OverflowError
    else Ok (Z.sgn n * v).

(** ** The numpy matrix *)

Abbreviation matrix := (list (list Z)).

(** [np.zeros((rows, cols))]; numpy refuses a negative dimension. *)
Definition np_zeros (rows cols : Z) : result matrix :=
  if bool_decide (rows < 0 ∨ cols < 0) then Err ValueError
  else Ok (replicate (Z.to_nat rows) (replicate (Z.to_nat cols) 0)).

(** [m[i1][i] = v] for a Python [int] [v]. *)
Definition setitem2 (m : matrix) (i1 i : Z) (v : Z) : result matrix :=
  row ← getitem m i1;
  _ ← getitem row i;
  x ← float_of_int v;
  Ok (<[Z.to_nat i1 := <[Z.to_nat i := x]> row]> m).

(** ** [smiles_to_binary] *)

Definition smiles_to_binary (smiles : str) (max_length : Z) : str :=
  let binary_sequence := mjoin ((λ c, format_08b (ord c)) <$> smiles) in
  let padding_length := max_length - len binary_sequence in
  binary_sequence ++ str_mul [chr_0] padding_length.

(** ** [find_divisors] *)

Definition find_divisors (n : Z) : list Z :=
  foldl (λ divisors i, if bool_decide (n `mod` i = 0)
                       then divisors ++ [i] else divisors)
        [] (range 1 (n + 1)).

(** ** [transform_to_vla] *)

(** [sum(bit * 2 ** (k - idx - 1) for idx, bit in enumerate(bits))].  The
    exponent is never negative where the program evaluates this: the loop
    body runs only when [k > 0], and then [bits] has [k] elements. *)
Definition weighted_sum (k : Z) (bits : list Z) : Z :=
  py_sum (imap (λ idx bit, bit * 2 ^ (k - Z.of_nat idx - 1)) bits).

(** The body of the inner loop, for row [i1] and group [i]. *)
Definition cell_step (smiles : list str) (k i1 : Z) (vla_smiles : matrix)
    (i : Z) : result matrix :=
  bits ← mapM (λ j, row ← getitem smiles i1; c ← getitem row j; py_int c)
              (range (i * k) ((i + 1) * k));
  let bits := (λ bit, if bool_decide (bit >= 0) then bit else 2) <$> bits in
  let r20 := weighted_sum k bits in
  if bool_decide (r20 = 0) then Ok vla_smiles
  else
    let bits := (λ bit, if bool_decide (bit = 2) then 0 else bit) <$> bits in
    let r20 := weighted_sum k bits in
    setitem2 vla_smiles i1 i r20.

Definition transform_to_vla (smiles : list str) (k : Z) : result matrix :=
  let num_samples := len smiles in
  row0 ← getitem smiles 0;
  let sequence_length := len row0 in
  cols ← floordiv sequence_length k;
  vla_smiles ← np_zeros num_samples cols;
  for_each (λ vla i1, for_each (cell_step smiles k i1) (range 0 cols) vla)
           (range 0 num_samples) vla_smiles.

(** ** [process_smiles_file]

    The function is modelled from the point where [smiles_list] has been
    read.  The files it writes are recorded, in order, in a log. *)

Inductive artifact : Type :=
  | BinaryOutput (lines : list str)           (* binary_output.dat *)
  | VlaOutput (k : Z) (vla_smiles : matrix).  (* vla_output_{k}.dat *)

(** Lines 75-76: the maximal length and the padded binary sequences. *)
Definition encode (smiles_list : list str) : result (list str) :=
  m ← py_max (len <$> smiles_list);
  let max_smiles_length := m * 8 in
  Ok ((λ smiles, smiles_to_binary smiles max_smiles_length) <$> smiles_list).

(** The loop over the divisors: one matrix and one file per divisor. *)
Fixpoint write_vla (binary_sequences : list str) (divisors : list Z)
    (log : list artifact) : list artifact * result () :=
  match divisors with
  | [] => (log, Ok ())
  | k :: rest =>
      match transform_to_vla binary_sequences k with
      | Err e => (log, Err e)
      | Ok vla_smiles =>
          write_vla binary_sequences rest (log ++ [VlaOutput k vla_smiles])
      end
  end.

Definition process_smiles_file (smiles_list : list str)
  : list artifact * result () :=
  match encode smiles_list with
  | Err e => ([], Err e)
  | Ok binary_sequences =>
      let log := [BinaryOutput binary_sequences] in
      match getitem binary_sequences 0 with
      | Err e => (log, Err e)
      | Ok s0 =>
          let sequence_length := len s0 in
          let divisors := find_divisors sequence_length in
          write_vla binary_sequences divisors log
      end
  end.

(** ** Vocabulary of the specification *)

(** A string over the alphabet '0', '1'. *)
Definition bit_string (s : str) : Prop :=
  Forall (λ c, c = chr_0 ∨ c = chr_1) s.

(** A batch of bit strings of common length [L]. *)
Definition bit_batch (L : Z) (smiles : list str) : Prop :=
  Forall (λ s, bit_string s ∧ len s = L) smiles.

(** A raw string whose code points all fit in 8 bits. *)
Definition byte_string (s : str) : Prop := Forall (λ c, (c ≤ 255)%N) s.

(** The big-endian 8-bit expansion of a code point: character [j] is bit
    [7 - j]. *)
Definition expand8 (c : char) : str :=
  (λ j, if N.testbit c (7 - j) then chr_1 else chr_0)
    <$> [0; 1; 2; 3; 4; 5; 6; 7]%N.

(** [M] is the maximal character length over the batch. *)
Definition max_length (raw : list str) (M : Z) : Prop :=
  (∀ s, s ∈ raw → len s ≤ M) ∧ (∃ s, s ∈ raw ∧ len s = M).

(** The bits of the slice [i * k, (i + 1) * k) of a bit string, and their
    value under positional weighting. *)
Definition group_bits (row : str) (k i : Z) : list Z :=
  (λ c, Z.of_N c - 48) <$> take (Z.to_nat k) (drop (Z.to_nat (i * k)) row).

Definition group_value (row : str) (k i : Z) : Z :=
  weighted_sum k (group_bits row k i).

(** The transform as the specification describes it once the sentinel
    step (step 4 of its algorithm) is left out: extract the bits, weigh
    them, leave a zero cell alone, store the value otherwise. *)
Definition cell_step_simplified (smiles : list str) (k i1 : Z)
    (vla_smiles : matrix) (i : Z) : result matrix :=
  bits ← mapM (λ j, row ← getitem smiles i1; c ← getitem row j; py_int c)
              (range (i * k) ((i + 1) * k));
  let r := weighted_sum k bits in
  if bool_decide (r = 0) then Ok vla_smiles
  else setitem2 vla_smiles i1 i r.

Definition transform_simplified (smiles : list str) (k : Z) : result matrix :=
  let num_samples := len smiles in
  row0 ← getitem smiles 0;
  let sequence_length := len row0 in
  cols ← floordiv sequence_length k;
  vla_smiles ← np_zeros num_samples cols;
  for_each (λ vla i1,
              for_each (cell_step_simplified smiles k i1) (range 0 cols) vla)
           (range 0 num_samples) vla_smiles.

(** What one run of the loop body leaves in cell [(i1, i)] of a matrix that
    held 0 there: the body either skips the cell or stores [r20]. *)
Definition cell_value (smiles : list str) (k i1 i : Z) : result Z :=
  bits ← mapM (λ j, row ← getitem smiles i1; c ← getitem row j; py_int c)
              (range (i * k) ((i + 1) * k));
  let bits := (λ bit, if bool_decide (bit >= 0) then bit else 2) <$> bits in
  let r20 := weighted_sum k bits in
  if bool_decide (r20 = 0) then Ok 0
  else
    let bits := (λ bit, if bool_decide (bit = 2) then 0 else bit) <$> bits in
    float_of_int (weighted_sum k bits).

Definition str_A : str := [65%N].
Definition str_AB : str := [65%N; 66%N].

(** "CCCCCCC", the SMILES string of heptane, and a string of seven
    characters of code point 255. *)
Definition str_heptane : str := replicate 7 67%N.
Definition str_y7 : str := replicate 7 255%N.

(** A chain of 129 carbon atoms: 129 characters 'C', 1032 bits. *)
Definition str_c129 : str := replicate 129 67%N.

(** ** The text files

    A text file is modelled by the text it holds.  Opened for reading in
    text mode, it hands the program this text with the line ends translated
    ([universal_newlines]); written on a POSIX system, it receives the text
    as it is. *)

Definition chr_nl : char := 10%N.
Definition chr_cr : char := 13%N.

(** Reading in text mode turns "\r\n" and a lone "\r" into "\n". *)
Fixpoint universal_newlines (s : str) : str :=
  match s with
  | [] => []
  | c :: rest =>
      if bool_decide (c = chr_cr) then
        chr_nl :: match rest with
                  | d :: rest' =>
                      if bool_decide (d = chr_nl) then universal_newlines rest'
                      else universal_newlines rest
                  | [] => []
                  end
      else c :: universal_newlines rest
  end.

(** The characters at which [str.splitlines] cuts. *)
Definition line_boundaries : list char :=
  [10; 11; 12; 13; 28; 29; 30; 133; 8232; 8233]%N.

(** [s.splitlines()]: the line ends are dropped, "\r\n" counts as one line
    end, and a text that ends with a line end has no empty last line.
    [cur] is the line read so far. *)
Fixpoint splitlines_from (cur : str) (s : str) : list str :=
  match s with
  | [] => match cur with [] => [] | _ => [cur] end
  | c :: rest =>
      if bool_decide (c ∈ line_boundaries) then
        cur :: match rest with
               | d :: rest' =>
                   if bool_decide (c = chr_cr ∧ d = chr_nl)
                   then splitlines_from [] rest'
                   else splitlines_from [] rest
               | [] => []
               end
      else splitlines_from (cur ++ [c]) rest
  end.

Definition splitlines (s : str) : list str := splitlines_from [] s.

(** [file.readlines()]: the text is cut after every "\n", which stays at
    the end of its line. *)
Fixpoint readlines_from (cur : str) (s : str) : list str :=
  match s with
  | [] => match cur with [] => [] | _ => [cur] end
  | c :: rest =>
      if bool_decide (c = chr_nl) then (cur ++ [c]) :: readlines_from [] rest
      else readlines_from (cur ++ [c]) rest
  end.

Definition readlines (s : str) : list str := readlines_from [] s.

(** The characters [str.strip] removes: those for which [str.isspace]
    holds. *)
Definition whitespace : list char :=
  [9; 10; 11; 12; 13; 28; 29; 30; 31; 32; 133; 160; 5760; 8192; 8193; 8194;
   8195; 8196; 8197; 8198; 8199; 8200; 8201; 8202; 8232; 8233; 8239; 8287;
   12288]%N.

Fixpoint lstrip (s : str) : str :=
  match s with
  | [] => []
  | c :: rest => if bool_decide (c ∈ whitespace) then lstrip rest else s
  end.

(** [s.strip()] *)
Definition strip (s : str) : str := reverse (lstrip (reverse (lstrip s))).

(** [read_binary_smiles], from the text of the file at [file_path]. *)
Definition read_binary_smiles (content : str) : list str :=
  strip <$> readlines (universal_newlines content).

(** Line 73 of [process_smiles_file], from the text of the input file:
    [smiles_list = file.read().splitlines()]. *)
Definition read_smiles_list (content : str) : list str :=
  splitlines (universal_newlines content).

(** Lines 78-81: the text written to binary_output.dat, one sequence and
    a "\n" after the other. *)
Definition binary_file_text (binary_sequences : list str) : str :=
  mjoin ((λ sequence, sequence ++ [chr_nl]) <$> binary_sequences).

(** ** More vocabulary *)

(** A character that [int] accepts. *)
Definition decimal_digit (c : char) : Prop := is_Ok (py_int c).

(** The character with the sentinel reading rewritten: a character that
    [int] reads as 2 becomes '0'. *)
Definition unknown_to_zero (c : char) : char :=
  match py_int c with
  | Ok b => if bool_decide (b = 2) then chr_0 else c
  | Err _ => c
  end.

(** ** Sanity checks on the example of the specification *)

Example encode_A_AB :
  encode [str_A; str_AB] =
  Ok [ [48;49;48;48;48;48;48;49;48;48;48;48;48;48;48;48]%N;
       [48;49;48;48;48;48;48;49;48;49;48;48;48;48;49;48]%N ].
Proof. reflexivity. Qed.

Example divisors_16 : find_divisors 16 = [1; 2; 4; 8; 16].
Proof. reflexivity. Qed.

Example transform_A_AB_8 :
  (bs ← encode [str_A; str_AB]; transform_to_vla bs 8)
  = Ok [[65; 0]; [65; 66]].
Proof. vm_compute. reflexivity. Qed.

Example transform_A_AB_16 :
  (bs ← encode [str_A; str_AB]; transform_to_vla bs 16)
  = Ok [[16640]; [16706]].
Proof. vm_compute. reflexivity. Qed.

(** ** The error monad *)

Lemma bind_Ok {A B} (f : A → result B) (a : A) : (Ok a ≫= f) = f a.
Proof. reflexivity. Qed.

Lemma bind_Err {A B} (f : A → result B) (e : exn) : (Err e ≫= f) = Err e.
Proof. reflexivity. Qed.

Ltac step_bind := rewrite ?bind_Ok, ?bind_Err; cbv beta.

Lemma for_each_ext {S X} (f g : S → X → result S) (xs : list X) (s : S) :
  (∀ s' x, x ∈ xs → f s' x = g s' x) → for_each f xs s = for_each g xs s.
Proof.
  revert s. induction xs as [|x xs IH]; intros s Hfg; [done|].
  simpl. rewrite Hfg by left.
  destruct (g s x) as [s'|e]; simpl; [|done].
  apply IH. intros s'' y Hy. apply Hfg. by right.
Qed.

(** ** The divisor enumeration *)

Lemma foldl_snoc_filter (P : Z → Prop) `{∀ i, Decision (P i)}
    (l acc : list Z) :
  foldl (λ divisors i, if bool_decide (P i) then divisors ++ [i] else divisors)
        acc l
  = acc ++ filter P l.
Proof.
  revert acc. induction l as [|i l IH]; intros acc; simpl.
  - by rewrite app_nil_r.
  - rewrite IH, filter_cons. case_bool_decide.
    + rewrite decide_True by done. by rewrite <- app_assoc.
    + by rewrite decide_False by done.
Qed.

Lemma find_divisors_filter (n : Z) :
  find_divisors n = filter (λ i, n `mod` i = 0) (range 1 (n + 1)).
Proof. unfold find_divisors. by rewrite foldl_snoc_filter. Qed.

Lemma StronglySorted_seqZ (m n : Z) : StronglySorted Z.lt (seqZ m n).
Proof.
  destruct (decide (n ≤ 0)) as [Hn|Hn].
  { rewrite seqZ_nil by done. constructor. }
  rewrite <- (Z2Nat.id n) by lia. generalize (Z.to_nat n) as j. clear.
  intros j. revert m. induction j as [|j IH]; intros m.
  - rewrite seqZ_nil by done. constructor.
  - rewrite seqZ_cons by lia. constructor.
    + replace (Z.pred (Z.of_nat (S j))) with (Z.of_nat j) by lia. apply IH.
    + apply Forall_seqZ. lia.
Qed.

Lemma StronglySorted_filter {A} (R : relation A) (P : A → Prop)
    `{∀ x, Decision (P x)} (l : list A) :
  StronglySorted R l → StronglySorted R (filter P l).
Proof.
  induction 1 as [|x l Hl IH Hx]; [constructor|].
  rewrite filter_cons. case_decide; [|done].
  constructor; [done|].
  apply Forall_forall. intros y [_ Hy]%list_elem_of_filter.
  by eapply Forall_forall in Hx.
Qed.

Lemma elem_of_find_divisors (n k : Z) :
  k ∈ find_divisors n ↔ 1 ≤ k ≤ n ∧ n `mod` k = 0.
Proof.
  rewrite find_divisors_filter, list_elem_of_filter.
  unfold range. rewrite elem_of_seqZ. intuition lia.
Qed.

(** C3. For every positive [L], [find_divisors L] is sorted strictly
    ascending and contains [k] exactly when [1 ≤ k ≤ L] and [L mod k = 0];
    in particular it contains both 1 and [L]. *)
Theorem find_divisors_exact (L : Z) :
  0 < L →
  StronglySorted Z.lt (find_divisors L)
  ∧ (∀ k, k ∈ find_divisors L ↔ 1 ≤ k ≤ L ∧ L `mod` k = 0)
  ∧ 1 ∈ find_divisors L
  ∧ L ∈ find_divisors L.
Proof.
  intros HL. split_and!.
  - rewrite find_divisors_filter. apply StronglySorted_filter, StronglySorted_seqZ.
  - intros k. apply elem_of_find_divisors.
  - apply elem_of_find_divisors. rewrite Z.mod_1_r. lia.
  - apply elem_of_find_divisors. rewrite Z.mod_same by lia. lia.
Qed.

Lemma find_divisors_exact_witness :
  StronglySorted Z.lt (find_divisors 16)
  ∧ (∀ k, k ∈ find_divisors 16 ↔ 1 ≤ k ≤ 16 ∧ 16 `mod` k = 0)
  ∧ 1 ∈ find_divisors 16
  ∧ 16 ∈ find_divisors 16.
Proof. apply (find_divisors_exact 16). lia. Defined.

(** ** The binary encoder *)

Lemma format_08b_bytes :
  Forall (λ c, format_08b (ord c) = expand8 c) (N.of_nat <$> seq 0 256).
Proof. compute_done. Qed.

Lemma format_08b_byte (c : char) :
  (c ≤ 255)%N → format_08b (ord c) = expand8 c.
Proof.
  intros Hc. pose proof format_08b_bytes as HF.
  rewrite Forall_forall in HF. apply HF.
  apply list_elem_of_fmap. exists (N.to_nat c). split; [by rewrite N2Nat.id|].
  apply elem_of_seq. lia.
Qed.

Lemma length_bin_pos (p : positive) (acc : str) :
  length (bin_pos p acc) = (Pos.size_nat p + length acc)%nat.
Proof.
  revert acc. induction p as [p IH|p IH|]; intros acc; simpl;
    rewrite ?IH; simpl; lia.
Qed.

Lemma length_format_08b_ge (n : Z) :
  0 ≤ n → (8 ≤ length (format_08b n))%nat.
Proof.
  intros Hn. unfold format_08b. rewrite bool_decide_false by lia.
  rewrite length_app, length_replicate. lia.
Qed.

Lemma length_format_08b_wide (c : char) :
  (255 < c)%N → (9 ≤ length (format_08b (ord c)))%nat.
Proof.
  intros Hc. unfold format_08b, ord. rewrite bool_decide_false by lia.
  rewrite length_app, length_replicate.
  destruct c as [|p]; [lia|]. simpl. rewrite length_bin_pos.
  assert (Pos.size_nat 256 ≤ Pos.size_nat p)%nat as Hs.
  { destruct (decide (p = 256%positive)) as [->|Hne]; [done|].
    apply Pos.size_nat_monotone. lia. }
  simpl in Hs. lia.
Qed.

Lemma str_mul_singleton (c : char) (n : Z) :
  str_mul [c] n = replicate (Z.to_nat n) c.
Proof.
  unfold str_mul. induction (Z.to_nat n) as [|j IH]; csimpl; [done|].
  by rewrite IH.
Qed.

Lemma join_format_08b_bytes (s : str) :
  byte_string s →
  mjoin ((λ c, format_08b (ord c)) <$> s) = mjoin (expand8 <$> s).
Proof.
  induction 1 as [|c s Hc Hs IH]; csimpl; [done|].
  by rewrite IH, format_08b_byte.
Qed.

Lemma length_join_expand8 (s : str) :
  length (mjoin (expand8 <$> s)) = (8 * length s)%nat.
Proof. induction s as [|c s IH]; csimpl; [done|]. rewrite IH. lia. Qed.

Lemma length_join_format_08b_ge (s : str) :
  (8 * length s ≤ length (mjoin ((λ c, format_08b (ord c)) <$> s)))%nat.
Proof.
  induction s as [|c s IH]; csimpl; [lia|].
  rewrite length_app.
  pose proof (length_format_08b_ge (ord c)). unfold ord in *. lia.
Qed.

Lemma length_join_format_08b_wide (s : str) (c : char) :
  c ∈ s → (255 < c)%N →
  (8 * length s < length (mjoin ((λ c, format_08b (ord c)) <$> s)))%nat.
Proof.
  intros Hin Hc. induction s as [|d s IH]; [by apply elem_of_nil in Hin|].
  csimpl. rewrite length_app. apply elem_of_cons in Hin as [<-|Hin].
  - pose proof (length_format_08b_wide c Hc).
    pose proof (length_join_format_08b_ge s). lia.
  - specialize (IH Hin).
    pose proof (length_format_08b_ge (ord d)). unfold ord in *. lia.
Qed.

Lemma smiles_to_binary_bytes (s : str) (L : Z) :
  byte_string s →
  smiles_to_binary s L
  = mjoin (expand8 <$> s) ++ replicate (Z.to_nat (L - 8 * len s)) chr_0.
Proof.
  intros Hs. unfold smiles_to_binary.
  rewrite str_mul_singleton, join_format_08b_bytes by done.
  unfold len. rewrite length_join_expand8. do 3 f_equal. lia.
Qed.

Lemma length_smiles_to_binary (s : str) (L : Z) :
  len (smiles_to_binary s L)
  = Z.max L (len (mjoin ((λ c, format_08b (ord c)) <$> s))).
Proof.
  unfold smiles_to_binary, len.
  rewrite str_mul_singleton, length_app, length_replicate. lia.
Qed.

Lemma foldl_max_spec (a : Z) (l : list Z) :
  a ≤ foldl Z.max a l
  ∧ Forall (λ x, x ≤ foldl Z.max a l) l
  ∧ (foldl Z.max a l = a ∨ foldl Z.max a l ∈ l).
Proof.
  revert a. induction l as [|x l IH]; intros a; simpl.
  - split_and!; [lia|constructor|by left].
  - destruct (IH (Z.max a x)) as (H1 & H2 & H3). split_and!.
    + lia.
    + constructor; [lia|done].
    + destruct H3 as [H3|H3].
      * rewrite H3. destruct (Z.max_spec a x) as [[_ ->]|[_ ->]];
          [right; left|by left].
      * right. by right.
Qed.

Lemma py_max_spec (xs : list Z) :
  xs ≠ [] →
  ∃ M, py_max xs = Ok M ∧ Forall (λ x, x ≤ M) xs ∧ M ∈ xs.
Proof.
  destruct xs as [|x xs]; [done|]. intros _.
  destruct (foldl_max_spec x xs) as (H1 & H2 & H3).
  exists (foldl Z.max x xs). split_and!; [done|by constructor|].
  destruct H3 as [->|H3]; [left|by right].
Qed.

Lemma encode_nonempty (raw : list str) :
  raw ≠ [] →
  ∃ M, max_length raw M
     ∧ encode raw = Ok ((λ smiles, smiles_to_binary smiles (M * 8)) <$> raw).
Proof.
  intros Hraw.
  destruct (py_max_spec (len <$> raw)) as (M & HM & Hle & Hin).
  { by destruct raw. }
  exists M. split; [split|].
  - intros s Hs. rewrite Forall_fmap, Forall_forall in Hle. by apply Hle.
  - apply list_elem_of_fmap in Hin as (s & -> & Hs). by exists s.
  - unfold encode. by rewrite HM.
Qed.

(** C2. For a non-empty batch of raw strings with code points in 0..255,
    the encoder returns, for each raw string, a string of length
    [8 * M], with [M] the maximal character length over the batch; its first
    [8 * len raw_i] characters are the big-endian 8-bit expansions of the
    code points of [raw_i] and all remaining characters are '0'. *)
Theorem encode_padded_expansion (raw : list str) :
  raw ≠ [] →
  Forall byte_string raw →
  ∃ M enc,
    max_length raw M
    ∧ encode raw = Ok enc
    ∧ Forall2 (λ s e,
        len e = 8 * M
        ∧ take (8 * length s) e = mjoin (expand8 <$> s)
        ∧ drop (8 * length s) e
          = replicate (Z.to_nat (8 * M - 8 * len s)) chr_0) raw enc.
Proof.
  intros Hraw Hbytes.
  destruct (encode_nonempty raw Hraw) as (M & HM & Henc).
  exists M, ((λ smiles, smiles_to_binary smiles (M * 8)) <$> raw).
  split_and!; [done..|].
  apply Forall2_fmap_r, Forall_Forall2_diag.
  rewrite Forall_forall in Hbytes. apply Forall_forall. intros s Hs.
  destruct HM as [Hle _]. specialize (Hle s Hs). unfold len in Hle.
  unfold compose. rewrite smiles_to_binary_bytes by auto.
  pose proof (length_join_expand8 s) as Hlen. split_and!.
  - unfold len. rewrite length_app, length_replicate, Hlen. unfold len. lia.
  - by rewrite take_app_length' by done.
  - rewrite drop_app_length' by done. f_equal. lia.
Qed.

Lemma encode_padded_expansion_witness :
  ∃ M enc,
    max_length [str_A; str_AB] M
    ∧ encode [str_A; str_AB] = Ok enc
    ∧ Forall2 (λ s e,
        len e = 8 * M
        ∧ take (8 * length s) e = mjoin (expand8 <$> s)
        ∧ drop (8 * length s) e
          = replicate (Z.to_nat (8 * M - 8 * len s)) chr_0)
        [str_A; str_AB] enc.
Proof.
  apply (encode_padded_expansion [str_A; str_AB]); [done|].
  repeat constructor; unfold N.le; simpl; discriminate.
Defined.

(** ** Indexing *)

Lemma getitem_lookup {A} (l : list A) (i : nat) (x : A) :
  l !! i = Some x → getitem l (Z.of_nat i) = Ok x.
Proof.
  intros Hx. pose proof (lookup_lt_Some _ _ _ Hx) as Hlt.
  unfold getitem, len. repeat case_bool_decide; try lia.
  by rewrite Nat2Z.id, Hx.
Qed.

Lemma getitem_0 {A} (l : list A) (x : A) :
  l !! 0%nat = Some x → getitem l 0 = Ok x.
Proof. apply (getitem_lookup l 0). Qed.

Lemma getitem_nonneg {A} (l : list A) (j : Z) :
  0 ≤ j →
  getitem l j = match l !! Z.to_nat j with
                | Some x => Ok x
                | None => Err IndexError
                end.
Proof.
  intros Hj. unfold getitem, len. repeat case_bool_decide; try lia; [done|].
  rewrite lookup_ge_None_2; [done|lia].
Qed.

Lemma getitem_Ok_elem_of {A} (l : list A) (j : Z) (x : A) :
  getitem l j = Ok x → x ∈ l.
Proof.
  unfold getitem. case_bool_decide; [|done].
  destruct (l !! _) as [y|] eqn:Hy; [|done].
  intros [= <-]. by eapply list_elem_of_lookup_2.
Qed.

Lemma getitem_Err {A} (l : list A) (j : Z) (e : exn) :
  getitem l j = Err e → e = IndexError.
Proof.
  unfold getitem. case_bool_decide; [|congruence].
  destruct (l !! _); congruence.
Qed.

(** ** Failures of the encoder and of the divisor enumeration *)

Lemma encode_fails_iff_empty (raw : list str) :
  (∃ e, encode raw = Err e) ↔ raw = [].
Proof.
  split.
  - intros [e He]. destruct raw as [|s raw]; [done|].
    destruct (encode_nonempty (s :: raw)) as (M & _ & HM); [done|]. congruence.
  - intros ->. by exists ValueError.
Qed.

(** C7. On the empty batch the encoder fails: [max] raises on the empty
    sequence (Python's [ValueError], the failure the specification calls
    EmptyBatchError), and [process_smiles_file] stops there with nothing
    written, neither the encoded batch nor any matrix. *)
Theorem empty_batch_fails :
  encode [] = Err ValueError
  ∧ process_smiles_file [] = ([], Err ValueError).
Proof. split; reflexivity. Qed.

(** C6, as stated, fails: a raw string holding code point 256 is encoded
    without any failure, the character taking nine digits. *)
Lemma encode_wide_char_counterexample :
  encode [[256%N]] = Ok [[49; 48; 48; 48; 48; 48; 48; 48; 48]%N]
  ∧ ∀ e, encode [[256%N]] ≠ Err e.
Proof. split; [reflexivity|]. intros e. discriminate. Qed.

(** C6, amended. A batch holding a raw string with a code point above 255
    is encoded without failure; such a character is written with its full
    binary expansion of at least nine digits, so that the encoding of every
    raw string holding one is longer than eight times its character
    length. *)
Theorem encode_wide_char (raw : list str) (s : str) (c : char) :
  s ∈ raw → c ∈ s → (255 < c)%N →
  (9 ≤ length (format_08b (ord c)))%nat
  ∧ ∃ M enc,
      max_length raw M
      ∧ encode raw = Ok enc
      ∧ Forall2 (λ s' e,
          e = smiles_to_binary s' (M * 8)
          ∧ ((∃ c', c' ∈ s' ∧ (255 < c')%N) → 8 * len s' < len e)) raw enc.
Proof.
  intros Hs Hc Hwide. split; [by apply length_format_08b_wide|].
  destruct (encode_nonempty raw) as (M & HM & Henc).
  { intros ->. by apply elem_of_nil in Hs. }
  exists M, ((λ smiles, smiles_to_binary smiles (M * 8)) <$> raw).
  split_and!; [done..|].
  apply Forall2_fmap_r, Forall_Forall2_diag, Forall_forall.
  intros s' _. unfold compose. split; [done|].
  intros (c' & Hc' & Hwide'). rewrite length_smiles_to_binary.
  pose proof (length_join_format_08b_wide s' c' Hc' Hwide'). unfold len. lia.
Qed.

Lemma encode_wide_char_witness :
  (9 ≤ length (format_08b (ord 256%N)))%nat
  ∧ ∃ M enc,
      max_length [[256%N]] M
      ∧ encode [[256%N]] = Ok enc
      ∧ Forall2 (λ s' e,
          e = smiles_to_binary s' (M * 8)
          ∧ ((∃ c', c' ∈ s' ∧ (255 < c')%N) → 8 * len s' < len e))
          [[256%N]] enc.
Proof.
  apply (encode_wide_char [[256%N]] [256%N] 256%N);
    [apply list_elem_of_here | apply list_elem_of_here | reflexivity].
Defined.

(** C8, as stated, fails: the batch holding one empty string is not empty,
    the length handed on is 0, and [find_divisors] returns the empty list on
    it instead of failing. *)
Lemma empty_line_length_counterexample :
  encode [[]] = Ok [[]]
  ∧ getitem ([[]] : list str) 0 = Ok []
  ∧ len ([] : str) = 0
  ∧ find_divisors 0 = [].
Proof. repeat split. Qed.

Lemma find_divisors_nonpos (L : Z) : L ≤ 0 → find_divisors L = [].
Proof.
  intros HL. rewrite find_divisors_filter. unfold range.
  by rewrite seqZ_nil by lia.
Qed.

(** C8, amended. For every raw batch holding at least one non-empty string,
    the length handed from the encoder to [find_divisors] is at least 8; and
    [find_divisors] does not fail on [L ≤ 0]: it returns the empty list. *)
Theorem handed_length_ge_8 (raw : list str) (s : str) (L : Z) :
  s ∈ raw → s ≠ [] → L ≤ 0 →
  (∃ binary_sequences s0,
      encode raw = Ok binary_sequences
      ∧ getitem binary_sequences 0 = Ok s0
      ∧ 8 ≤ len s0)
  ∧ find_divisors L = [].
Proof.
  intros Hs Hne HL. split; [|by apply find_divisors_nonpos].
  destruct (encode_nonempty raw) as (M & [Hle _] & Henc).
  { intros ->. by apply elem_of_nil in Hs. }
  destruct raw as [|r0 raw]; [by apply elem_of_nil in Hs|].
  eexists _, (smiles_to_binary r0 (M * 8)). split_and!; [exact Henc|done|].
  rewrite length_smiles_to_binary. specialize (Hle s Hs).
  destruct s; [done|]. unfold len in Hle. simpl in Hle. lia.
Qed.

Lemma handed_length_ge_8_witness :
  (∃ binary_sequences s0,
      encode [str_A; str_AB] = Ok binary_sequences
      ∧ getitem binary_sequences 0 = Ok s0
      ∧ 8 ≤ len s0)
  ∧ find_divisors (-3) = [].
Proof.
  apply (handed_length_ge_8 [str_A; str_AB] str_A (-3));
    [apply list_elem_of_here | discriminate | lia].
Defined.

(** ** Sequential maps in the error monad *)

Section mapM_result.
Context {A B : Type}.
Implicit Types (f g : A → result B) (l : list A).

Lemma mapM_cons f x l :
  mapM f (x :: l) = y ← f x; ys ← mapM f l; Ok (y :: ys).
Proof. reflexivity. Qed.

Lemma mapM_ext_in f g l :
  (∀ x, x ∈ l → f x = g x) → mapM f l = mapM g l.
Proof.
  induction l as [|x l IH]; intros Hfg; [done|].
  rewrite !mapM_cons, Hfg by left.
  rewrite IH; [done|]. intros y Hy. apply Hfg. by right.
Qed.

Lemma mapM_Ok_Forall2 f l ys :
  mapM f l = Ok ys → Forall2 (λ x y, f x = Ok y) l ys.
Proof.
  revert ys. induction l as [|x l IH]; intros ys.
  - intros [= <-]. constructor.
  - rewrite mapM_cons. destruct (f x) as [y|e] eqn:Hx; [|done].
    destruct (mapM f l) as [ys'|e]; [|done].
    intros [= <-]. constructor; [done|]. by apply IH.
Qed.

Lemma mapM_Forall2_Ok f l ys :
  Forall2 (λ x y, f x = Ok y) l ys → mapM f l = Ok ys.
Proof.
  induction 1 as [|x y l ys Hx _ IH]; [done|].
  by rewrite mapM_cons, Hx, IH.
Qed.

Lemma mapM_Err_inv f l e :
  mapM f l = Err e → ∃ x, x ∈ l ∧ f x = Err e.
Proof.
  induction l as [|x l IH]; [done|].
  rewrite mapM_cons. destruct (f x) as [y|e'] eqn:Hx.
  - destruct (mapM f l) as [ys|e'']; [done|].
    intros [= <-]. destruct IH as (x' & Hin & Hx'); [done|].
    exists x'. split; [by right|done].
  - intros [= <-]. exists x. split; [by left|done].
Qed.

Lemma mapM_is_Ok f l :
  (∀ x, x ∈ l → is_Ok (f x)) → is_Ok (mapM f l).
Proof.
  intros Hok. destruct (mapM f l) as [ys|e] eqn:Hm; [by exists ys|].
  apply mapM_Err_inv in Hm as (x & Hin & Hx).
  destruct (Hok x Hin) as [y Hy]. congruence.
Qed.
End mapM_result.

(** Mapping over the indices of a list and reading the element is mapping
    over the list. *)
Lemma mapM_seqZ_lookup {A B} (g : Z → result B) (f : A → result B)
    (l : list A) (s : Z) :
  (∀ (i : nat) x, l !! i = Some x → g (s + Z.of_nat i) = f x) →
  mapM g (seqZ s (len l)) = mapM f l.
Proof.
  revert s. induction l as [|x l IH]; intros s Hg; [done|].
  unfold len. rewrite seqZ_cons by (simpl; lia).
  rewrite !mapM_cons. rewrite <- (Hg 0%nat x), Z.add_0_r by done.
  replace (Z.pred (Z.of_nat (length (x :: l)))) with (len l)
    by (unfold len; simpl; lia).
  rewrite (IH (Z.succ s)); [done|].
  intros i y Hy. rewrite <- (Hg (S i) y) by done. f_equal. lia.
Qed.

(** ** The loops of [transform_to_vla] write each cell once *)

Lemma cell_step_cell_value (smiles : list str) (k i1 i : Z) (vla : matrix)
    (row : list Z) :
  0 ≤ i1 → 0 ≤ i →
  vla !! Z.to_nat i1 = Some row →
  row !! Z.to_nat i = Some 0 →
  cell_step smiles k i1 vla i
  = v ← cell_value smiles k i1 i;
    Ok (<[Z.to_nat i1 := <[Z.to_nat i := v]> row]> vla).
Proof.
  intros Hi1 Hi Hrow Hcell. unfold cell_step, cell_value.
  destruct (mapM _ _) as [bits|e]; [|done]. simpl.
  case_bool_decide.
  - step_bind. rewrite (list_insert_id row) by done.
    by rewrite list_insert_id.
  - unfold setitem2. rewrite getitem_nonneg, Hrow by done. step_bind.
    rewrite getitem_nonneg, Hcell by done. by step_bind.
Qed.

Lemma row_loop (smiles : list str) (k i1 : Z) (n : nat) :
  ∀ (c : nat) (vla : matrix) (filled : list Z),
    0 ≤ i1 →
    vla !! Z.to_nat i1 = Some (filled ++ replicate n 0) →
    length filled = c →
    for_each (cell_step smiles k i1) (seqZ (Z.of_nat c) (Z.of_nat n)) vla
    = vs ← mapM (cell_value smiles k i1) (seqZ (Z.of_nat c) (Z.of_nat n));
      Ok (<[Z.to_nat i1 := filled ++ vs]> vla).
Proof.
  induction n as [|n IH]; intros c vla filled Hi1 Hrow Hlen.
  - rewrite seqZ_nil by done. simpl.
    rewrite list_insert_id; [done|]. by rewrite app_nil_r in *.
  - rewrite seqZ_cons by lia.
    replace (Z.pred (Z.of_nat (S n))) with (Z.of_nat n) by lia.
    replace (Z.succ (Z.of_nat c)) with (Z.of_nat (S c)) by lia.
    rewrite mapM_cons. simpl for_each.
    rewrite (cell_step_cell_value smiles k i1 (Z.of_nat c) vla _ Hi1
               (Nat2Z.is_nonneg c) Hrow); last first.
    { rewrite Nat2Z.id, lookup_app_r by lia.
      by replace (c - length filled)%nat with 0%nat by lia. }
    destruct (cell_value smiles k i1 (Z.of_nat c)) as [v|e]; [|done].
    step_bind.
    assert (<[Z.to_nat (Z.of_nat c) := v]> (filled ++ replicate (S n) 0)
            = (filled ++ [v]) ++ replicate n 0) as ->.
    { rewrite Nat2Z.id, insert_app_r_alt by lia.
      replace (c - length filled)%nat with 0%nat by lia.
      by rewrite <- app_assoc. }
    rewrite (IH (S c) _ (filled ++ [v]) Hi1); last first.
    { rewrite length_app. simpl. lia. }
    { apply list_lookup_insert_eq. by eapply lookup_lt_Some. }
    destruct (mapM _ _) as [vs|e]; [|done]. simpl.
    by rewrite list_insert_insert_eq, <- app_assoc.
Qed.

Lemma row_loop_0 (smiles : list str) (k i1 cols : Z) (vla : matrix) :
  0 ≤ i1 → 0 ≤ cols →
  vla !! Z.to_nat i1 = Some (replicate (Z.to_nat cols) 0) →
  for_each (cell_step smiles k i1) (range 0 cols) vla
  = vs ← mapM (cell_value smiles k i1) (range 0 cols);
    Ok (<[Z.to_nat i1 := vs]> vla).
Proof.
  intros Hi1 Hcols Hrow.
  pose proof (row_loop smiles k i1 (Z.to_nat cols) 0 vla [] Hi1 Hrow eq_refl)
    as Hloop.
  unfold range. rewrite Z.sub_0_r.
  by rewrite Z2Nat.id in Hloop by done.
Qed.

Lemma matrix_loop (smiles : list str) (k cols : Z) (n : nat) :
  0 ≤ cols →
  ∀ (r : nat) (filled : matrix),
    length filled = r →
    for_each (λ vla i1, for_each (cell_step smiles k i1) (range 0 cols) vla)
             (seqZ (Z.of_nat r) (Z.of_nat n))
             (filled ++ replicate n (replicate (Z.to_nat cols) 0))
    = rows ← mapM (λ i1, mapM (cell_value smiles k i1) (range 0 cols))
                  (seqZ (Z.of_nat r) (Z.of_nat n));
      Ok (filled ++ rows).
Proof.
  intros Hcols. induction n as [|n IH]; intros r filled Hlen.
  - rewrite seqZ_nil by done. done.
  - rewrite seqZ_cons by lia.
    replace (Z.pred (Z.of_nat (S n))) with (Z.of_nat n) by lia.
    replace (Z.succ (Z.of_nat r)) with (Z.of_nat (S r)) by lia.
    rewrite mapM_cons. simpl for_each.
    rewrite row_loop_0; [|lia|done|]; last first.
    { rewrite Nat2Z.id, lookup_app_r by lia.
      by replace (r - length filled)%nat with 0%nat by lia. }
    destruct (mapM _ _) as [vs|e]; [|done]. step_bind.
    rewrite Nat2Z.id, insert_app_r_alt by lia.
    replace (r - length filled)%nat with 0%nat by lia. simpl.
    rewrite (cons_middle vs), app_assoc.
    rewrite (IH (S r)) by (rewrite length_app; simpl; lia).
    destruct (mapM _ _) as [rows|e]; [|done]. simpl.
    by rewrite <- app_assoc.
Qed.

(** The imperative double loop computes the matrix of cell values, row by
    row, and fails where the first cell fails. *)
Lemma transform_to_vla_cells (smiles : list str) (k : Z) :
  transform_to_vla smiles k
  = row0 ← getitem smiles 0;
    cols ← floordiv (len row0) k;
    _ ← np_zeros (len smiles) cols;
    mapM (λ i1, mapM (cell_value smiles k i1) (range 0 cols))
         (range 0 (len smiles)).
Proof.
  unfold transform_to_vla.
  destruct (getitem smiles 0) as [row0|e]; [|done]. simpl.
  destruct (floordiv _ _) as [cols|e]; [|done]. simpl.
  unfold np_zeros. case_bool_decide as Hneg; [done|]. simpl.
  assert (0 ≤ cols) as Hcols by lia.
  pose proof (matrix_loop smiles k cols (length smiles) Hcols 0 [] eq_refl)
    as Hloop.
  change (Z.of_nat 0) with 0 in Hloop. cbn [app] in Hloop.
  unfold range, len in *. rewrite !Z.sub_0_r in *.
  rewrite Nat2Z.id, Hloop.
  by destruct (mapM _ _).
Qed.

(** ** Reading a group of bits *)

Lemma py_int_bit (c : char) :
  c = chr_0 ∨ c = chr_1 → py_int c = Ok (Z.of_N c - 48).
Proof. by intros [->| ->]. Qed.

Lemma py_int_bit_range (c : char) (b : Z) :
  c = chr_0 ∨ c = chr_1 → py_int c = Ok b → b = 0 ∨ b = 1.
Proof. intros [->| ->] [= <-]; [by left|by right]. Qed.

Lemma read_bits (row : str) (k : nat) :
  bit_string row →
  ∀ start : nat,
    (start + k ≤ length row)%nat →
    mapM (λ j, c ← getitem row j; py_int c)
         (seqZ (Z.of_nat start) (Z.of_nat k))
    = Ok ((λ c, Z.of_N c - 48) <$> take k (drop start row)).
Proof.
  intros Hrow. induction k as [|k IH]; intros start Hlen.
  - by rewrite seqZ_nil by done.
  - rewrite seqZ_cons by lia.
    replace (Z.pred (Z.of_nat (S k))) with (Z.of_nat k) by lia.
    replace (Z.succ (Z.of_nat start)) with (Z.of_nat (S start)) by lia.
    destruct (lookup_lt_is_Some_2 row start) as [c Hc]; [lia|].
    rewrite mapM_cons, (getitem_lookup _ _ _ Hc). step_bind.
    rewrite py_int_bit; last first.
    { unfold bit_string in Hrow. rewrite Forall_forall in Hrow.
      by eapply Hrow, list_elem_of_lookup_2. }
    step_bind. rewrite IH by lia. step_bind.
    by rewrite (drop_S _ _ _ Hc).
Qed.

Lemma group_bits_length (row : str) (k i : Z) :
  0 ≤ k → 0 ≤ i → (i + 1) * k ≤ len row →
  len (group_bits row k i) = k.
Proof.
  intros Hk Hi Hlen. unfold group_bits, len in *.
  rewrite length_fmap, length_take, length_drop. nia.
Qed.

Lemma group_bits_range (row : str) (k i : Z) :
  bit_string row → Forall (λ b, b = 0 ∨ b = 1) (group_bits row k i).
Proof.
  intros Hrow. unfold group_bits. rewrite Forall_fmap.
  apply Forall_take, Forall_drop.
  eapply Forall_impl; [exact Hrow|]. by intros c [->| ->]; [left|right].
Qed.

(** ** The positional weighting *)

Lemma foldl_add_shift (a : Z) (l : list Z) :
  foldl Z.add a l = a + foldl Z.add 0 l.
Proof.
  revert a. induction l as [|x l IH]; intros a; simpl; [lia|].
  rewrite (IH (a + x)), (IH (0 + x)). lia.
Qed.

Lemma py_sum_cons (x : Z) (l : list Z) : py_sum (x :: l) = x + py_sum l.
Proof. unfold py_sum. simpl. apply foldl_add_shift. Qed.

Lemma weighted_sum_cons (n : nat) (b : Z) (bs : list Z) :
  weighted_sum (Z.of_nat (S n)) (b :: bs)
  = b * 2 ^ Z.of_nat n + weighted_sum (Z.of_nat n) bs.
Proof.
  unfold weighted_sum. rewrite imap_cons, py_sum_cons. f_equal.
  - do 2 f_equal. lia.
  - f_equal. apply imap_ext. intros idx bit _. simpl. do 2 f_equal. lia.
Qed.

Lemma weighted_sum_bound (bs : list Z) :
  Forall (λ b, b = 0 ∨ b = 1) bs →
  0 ≤ weighted_sum (len bs) bs < 2 ^ len bs.
Proof.
  unfold len. induction 1 as [|b bs Hb _ IH].
  - by vm_compute.
  - change (length (b :: bs)) with (S (length bs)).
    rewrite weighted_sum_cons, Nat2Z.inj_succ, Z.pow_succ_r by lia.
    assert (0 < 2 ^ Z.of_nat (length bs)) by (apply Z.pow_pos_nonneg; lia).
    destruct Hb as [->| ->]; lia.
Qed.

Lemma clamp_bits_id (bs : list Z) :
  Forall (λ b, b = 0 ∨ b = 1) bs →
  (λ bit, if bool_decide (bit >= 0) then bit else 2) <$> bs = bs.
Proof.
  intros Hbs. rewrite <- (list_fmap_id bs) at 2.
  apply Forall_fmap_ext. eapply Forall_impl; [exact Hbs|].
  intros b [->| ->]; done.
Qed.

Lemma sentinel_bits_id (bs : list Z) :
  Forall (λ b, b = 0 ∨ b = 1) bs →
  (λ bit, if bool_decide (bit = 2) then 0 else bit) <$> bs = bs.
Proof.
  intros Hbs. rewrite <- (list_fmap_id bs) at 2.
  apply Forall_fmap_ext. eapply Forall_impl; [exact Hbs|].
  intros b [->| ->]; done.
Qed.

Lemma group_value_bound (row : str) (k i : Z) :
  bit_string row → 0 ≤ k → 0 ≤ i → (i + 1) * k ≤ len row →
  0 ≤ group_value row k i < 2 ^ k.
Proof.
  intros Hrow Hk Hi Hlen. unfold group_value.
  pose proof (weighted_sum_bound _ (group_bits_range row k i Hrow)) as Hb.
  by rewrite group_bits_length in Hb.
Qed.

(** ** Storing an integer in the [float64] matrix *)

Lemma float_of_int_exact (n : Z) :
  0 ≤ n < 2 ^ 53 → float_of_int n = Ok n.
Proof.
  intros Hn. unfold float_of_int. rewrite bool_decide_true; [done|].
  rewrite Z.abs_eq by lia.
  destruct (decide (n = 0)) as [->|Hne]; [done|].
  assert (Z.log2 n < 53) by (apply Z.log2_lt_pow2; lia). lia.
Qed.

Lemma float_of_int_Err (n : Z) (e : exn) :
  float_of_int n = Err e → e = OverflowError.
Proof.
  unfold float_of_int. repeat case_bool_decide; congruence.
Qed.

Lemma float_of_int_in_range (n : Z) :
  0 ≤ n < 2 ^ 1023 → is_Ok (float_of_int n).
Proof.
  intros Hn. unfold float_of_int.
  case_bool_decide as He; [by eexists|].
  rewrite Z.abs_eq in * by lia.
  assert (0 < n) as Hpos.
  { destruct (decide (n = 0)) as [->|]; [|lia]. by destruct He. }
  set (e := Z.log2 n - 52) in *.
  assert (Z.log2 n < 1023) as Hlog by (apply Z.log2_lt_pow2; lia).
  destruct (Z.log2_spec n Hpos) as [_ Hup].
  assert (0 < 2 ^ e) as Hpe by (apply Z.pow_pos_nonneg; lia).
  assert (2 ^ Z.succ (Z.log2 n) = 2 ^ 53 * 2 ^ e) as Hsplit.
  { rewrite <- Z.pow_add_r by lia. f_equal. lia. }
  assert (n ≫ e < 2 ^ 53) as Hq.
  { rewrite Z.shiftr_div_pow2 by lia.
    apply Z.div_lt_upper_bound; [done|]. lia. }
  rewrite bool_decide_false; [by eexists|].
  rewrite Z.shiftl_mul_pow2 by lia.
  assert (2 ^ 53 * 2 ^ e ≤ 2 ^ 1023) as Hle.
  { rewrite <- Hsplit. apply Z.pow_le_mono_r; lia. }
  assert (2 ^ 1023 < 2 ^ 1024) by (apply Z.pow_lt_mono_r; lia).
  case_bool_decide; nia.
Qed.

(** ** The transform on a batch of bit strings *)

Lemma cell_value_bits (smiles : list str) (k i : Z) (i1 : nat) (row : str) :
  smiles !! i1 = Some row → bit_string row →
  1 ≤ k → 0 ≤ i → (i + 1) * k ≤ len row →
  cell_value smiles k (Z.of_nat i1) i = float_of_int (group_value row k i).
Proof.
  intros Hrow Hbits Hk Hi Hlen. unfold cell_value.
  rewrite (mapM_ext_in _ (λ j, c ← getitem row j; py_int c)); last first.
  { intros j _. by rewrite (getitem_lookup _ _ _ Hrow). }
  unfold range. replace ((i + 1) * k - i * k) with k by lia.
  pose proof (read_bits row (Z.to_nat k) Hbits (Z.to_nat (i * k))) as Hread.
  rewrite !Z2Nat.id in Hread by nia. rewrite Hread by (unfold len in Hlen; nia).
  step_bind. fold (group_bits row k i).
  pose proof (group_bits_range row k i Hbits) as Hrange.
  rewrite clamp_bits_id, sentinel_bits_id by done.
  fold (group_value row k i).
  case_bool_decide as Hz; [by rewrite Hz|done].
Qed.

Lemma bit_batch_lookup (smiles : list str) (L : Z) (i1 : nat) (row : str) :
  bit_batch L smiles → smiles !! i1 = Some row →
  bit_string row ∧ len row = L.
Proof.
  intros Hb Hrow. unfold bit_batch in Hb. rewrite Forall_forall in Hb.
  by eapply Hb, list_elem_of_lookup_2.
Qed.

Lemma transform_bit_batch (smiles : list str) (L k : Z) :
  smiles ≠ [] → bit_batch L smiles → 1 ≤ k →
  transform_to_vla smiles k
  = mapM (λ row, mapM (λ i, float_of_int (group_value row k i))
                      (range 0 (L `div` k))) smiles.
Proof.
  intros Hne Hb Hk. rewrite transform_to_vla_cells.
  destruct smiles as [|row0 rest] eqn:Hs; [done|]. rewrite <- Hs in *.
  assert (smiles !! 0%nat = Some row0) as H0 by by rewrite Hs.
  destruct (bit_batch_lookup _ _ _ _ Hb H0) as [_ HL].
  assert (0 ≤ L) by (unfold len in HL; lia).
  assert (0 ≤ L `div` k) by (apply Z.div_pos; lia).
  pose proof (Z.mul_div_le L k ltac:(lia)) as Hdiv.
  rewrite (getitem_0 smiles row0 H0). step_bind. rewrite HL.
  unfold floordiv. rewrite bool_decide_false by lia. step_bind.
  unfold np_zeros. rewrite bool_decide_false by (unfold len; lia). step_bind.
  unfold range at 2. rewrite Z.sub_0_r.
  apply mapM_seqZ_lookup. intros i1 row Hrow. rewrite Z.add_0_l.
  destruct (bit_batch_lookup _ _ _ _ Hb Hrow) as [Hbits Hlen].
  apply mapM_ext_in. intros i Hi.
  unfold range in Hi. apply elem_of_seqZ in Hi.
  apply cell_value_bits; [done..|lia|nia].
Qed.

Lemma mapM_rows_shape {A} (f : A → Z → result Z) (cols : Z) (rows : list A)
    (m : matrix) :
  0 ≤ cols →
  mapM (λ row, mapM (f row) (range 0 cols)) rows = Ok m →
  len m = len rows ∧ Forall (λ r, len r = cols) m.
Proof.
  intros Hcols Hm. apply mapM_Ok_Forall2 in Hm. split.
  - unfold len. f_equal. symmetry. by eapply Forall2_length.
  - eapply Forall2_Forall_r; [exact Hm|]. apply Forall_forall.
    intros row _ r Hr. apply mapM_Ok_Forall2, Forall2_length in Hr.
    unfold len, range in *. rewrite <- Hr, length_seqZ. lia.
Qed.

(** C5, as stated, fails: 2 does not divide 3, and the transform of a
    3-bit row with [k = 2] returns a matrix. *)
Lemma transform_nondivisor_counterexample :
  bit_batch 3 [[48; 49; 48]%N]
  ∧ ¬ (2 | 3)
  ∧ transform_to_vla [[48; 49; 48]%N] 2 = Ok [[1]].
Proof.
  split_and!; [|intros [q Hq]; lia|reflexivity].
  repeat constructor; by right.
Qed.

(** C5, amended. [transform_to_vla] never checks that [k] divides the row
    length.  On a non-empty batch of bit strings of common length [L] and a
    [k] that does not divide [L]: a negative [k] fails in [np.zeros]
    ([ValueError]), [k = 0] fails in the floor division
    ([ZeroDivisionError]), and a positive [k] gives a matrix with as many
    rows as the batch and [L // k] columns, unless the value of a group is
    too large for a [float64], which needs [1024 ≤ k ≤ L]. *)
Theorem transform_no_divisibility_check (smiles : list str) (L k : Z) :
  smiles ≠ [] → bit_batch L smiles → ¬ (k | L) →
  (k < 0 → transform_to_vla smiles k = Err ValueError)
  ∧ (k = 0 → transform_to_vla smiles k = Err ZeroDivisionError)
  ∧ (1 ≤ k →
     (∃ m, transform_to_vla smiles k = Ok m
         ∧ len m = len smiles
         ∧ Forall (λ r, len r = L `div` k) m)
     ∨ (1024 ≤ k ≤ L ∧ transform_to_vla smiles k = Err OverflowError)).
Proof.
  intros Hne Hb Hndiv.
  destruct smiles as [|row0 rest] eqn:Hs; [done|]. rewrite <- Hs in *.
  assert (smiles !! 0%nat = Some row0) as H0 by by rewrite Hs.
  destruct (bit_batch_lookup _ _ _ _ Hb H0) as [_ HL].
  assert (0 ≤ L) as HL0 by (unfold len in HL; lia).
  split_and!.
  - intros Hk. unfold transform_to_vla.
    rewrite (getitem_0 smiles row0 H0). step_bind. rewrite HL.
    unfold floordiv. rewrite bool_decide_false by lia. step_bind.
    unfold np_zeros. rewrite bool_decide_true; [done|]. right.
    assert (L ≠ 0) by (intros ->; apply Hndiv, Z.divide_0_r).
    pose proof (Z.div_mod L k ltac:(lia)).
    pose proof (Z.mod_neg_bound L k Hk). nia.
  - intros ->. unfold transform_to_vla.
    by rewrite (getitem_0 smiles row0 H0).
  - intros Hk. rewrite (transform_bit_batch smiles L k) by done.
    assert (0 ≤ L `div` k) as Hcols by (apply Z.div_pos; lia).
    destruct (mapM _ smiles) as [m|e] eqn:Hm.
    + left. exists m. split; [done|].
      exact (mapM_rows_shape (λ row i, float_of_int (group_value row k i))
               _ _ _ Hcols Hm).
    + right. apply mapM_Err_inv in Hm as (row & Hrow & Hm).
      apply mapM_Err_inv in Hm as (i & Hi & Hm).
      unfold range in Hi. apply elem_of_seqZ in Hi.
      apply list_elem_of_lookup in Hrow as [i1 Hrow].
      destruct (bit_batch_lookup _ _ _ _ Hb Hrow) as [Hbits Hlen].
      pose proof (Z.mul_div_le L k ltac:(lia)) as Hdiv.
      rewrite (float_of_int_Err _ _ Hm) in *. split; [|done].
      split; [|nia].
      destruct (decide (k ≤ 1023)) as [Hsmall|]; [|lia]. exfalso.
      destruct (float_of_int_in_range (group_value row k i)) as [v Hv];
        [|congruence].
      pose proof (group_value_bound row k i Hbits ltac:(lia) ltac:(lia)
                    ltac:(nia)) as Hbound.
      assert (2 ^ k ≤ 2 ^ 1023) by (apply Z.pow_le_mono_r; lia). lia.
Qed.

Lemma transform_no_divisibility_check_witness :
  (2 < 0 → transform_to_vla [[48; 49; 48]%N] 2 = Err ValueError)
  ∧ (2 = 0 → transform_to_vla [[48; 49; 48]%N] 2 = Err ZeroDivisionError)
  ∧ (1 ≤ 2 →
     (∃ m, transform_to_vla [[48; 49; 48]%N] 2 = Ok m
         ∧ len m = len [[48; 49; 48]%N]
         ∧ Forall (λ r, len r = 3 `div` 2) m)
     ∨ (1024 ≤ 2 ≤ 3
        ∧ transform_to_vla [[48; 49; 48]%N] 2 = Err OverflowError)).
Proof.
  apply (transform_no_divisibility_check [[48; 49; 48]%N] 3 2).
  - discriminate.
  - repeat constructor; by right.
  - intros [q Hq]; lia.
Defined.

(** ** Only the groups that fit are read *)

Lemma group_value_take (row : str) (k i : Z) (n : nat) :
  0 ≤ k → 0 ≤ i → (i + 1) * k ≤ Z.of_nat n →
  group_value (take n row) k i = group_value row k i.
Proof.
  intros Hk Hi Hn. unfold group_value, group_bits. do 2 f_equal.
  rewrite !take_drop_commute, take_take. do 2 f_equal. nia.
Qed.

Lemma cell_value_prefix (smiles smiles' : list str) (k i1 i : Z) (n : nat) :
  Forall2 (λ s s', take n s' = take n s) smiles smiles' →
  0 ≤ i1 → 1 ≤ k → 0 ≤ i → (i + 1) * k ≤ Z.of_nat n →
  cell_value smiles' k i1 i = cell_value smiles k i1 i.
Proof.
  intros Hpre Hi1 Hk Hi Hn. unfold cell_value.
  rewrite (mapM_ext_in
             (λ j, row ← getitem smiles' i1; c ← getitem row j; py_int c)
             (λ j, row ← getitem smiles i1; c ← getitem row j; py_int c));
    [done|].
  intros j Hj. unfold range in Hj. apply elem_of_seqZ in Hj.
  rewrite !(getitem_nonneg _ i1) by done.
  pose proof (Forall2_length _ _ _ Hpre) as Hlen.
  destruct (smiles !! Z.to_nat i1) as [s|] eqn:Hs,
           (smiles' !! Z.to_nat i1) as [s'|] eqn:Hs'.
  - step_bind. rewrite !(getitem_nonneg _ j) by nia.
    pose proof (Forall2_lookup_lr _ _ _ _ _ _ Hpre Hs Hs') as Htake.
    rewrite <- (lookup_take_lt s n), <- (lookup_take_lt s' n) by nia.
    by rewrite Htake.
  - apply lookup_lt_Some in Hs. apply lookup_ge_None in Hs'. lia.
  - apply lookup_lt_Some in Hs'. apply lookup_ge_None in Hs. lia.
  - done.
Qed.

(** C10, on the code: 1024 does not divide 1025 and [1 ≤ 1024 ≤ 1025],
    yet on a row of 1025 ones [transform_to_vla] does not return a matrix:
    the first group has value [2 ^ 1024 - 1], which does not fit a
    [float64], and storing it in the matrix raises [OverflowError].  This is
    the store of integer group values in a [float64] array once more. *)
Theorem nondivisor_group_overflows :
  bit_batch 1025 [replicate 1025 chr_1]
  ∧ 1 ≤ 1024 ≤ 1025
  ∧ ¬ (1024 | 1025)
  ∧ transform_to_vla [replicate 1025 chr_1] 1024 = Err OverflowError.
Proof.
  split_and!; [|lia|lia|intros [q Hq]; lia|by vm_compute].
  constructor; [|constructor]. split.
  - apply Forall_replicate. by right.
  - unfold len. by rewrite length_replicate.
Qed.

(** Where no group value can overflow, that is for [k ≤ 1023], the
    transform of a [k] that does not divide [L] goes through: for a
    non-empty batch of bit strings of common length [L] and [1 ≤ k ≤ L],
    [transform_to_vla] returns a matrix with as many rows as the batch and
    [L // k] columns, whose cell [(i1, i)] is what storing the value of
    group [i] of the first [(L // k) * k] bits of row [i1] gives; a batch
    that agrees with this one on the first [(L // k) * k] bits of every row
    gives the same matrix. *)
Lemma transform_truncates (smiles : list str) (L k : Z) :
  smiles ≠ [] → bit_batch L smiles → 1 ≤ k ≤ L → ¬ (k | L) → k ≤ 1023 →
  let n := Z.to_nat (L `div` k * k) in
  ∃ m,
    transform_to_vla smiles k = Ok m
    ∧ len m = len smiles
    ∧ Forall (λ r, len r = L `div` k) m
    ∧ Forall2 (λ row r,
        Forall2 (λ i v, float_of_int (group_value (take n row) k i) = Ok v)
                (range 0 (L `div` k)) r) smiles m
    ∧ ∀ smiles',
        Forall2 (λ s s', len s' = L ∧ take n s' = take n s) smiles smiles' →
        transform_to_vla smiles' k = Ok m.
Proof.
  intros Hne Hb Hk Hndiv Hsmall n.
  assert (0 ≤ L `div` k) as Hcols by (apply Z.div_pos; lia).
  pose proof (Z.mul_div_le L k ltac:(lia)) as Hdiv.
  assert (Z.of_nat n = L `div` k * k) as Hn by (unfold n; lia).
  assert (transform_to_vla smiles k
          = mapM (λ row, mapM (λ i, float_of_int
                                      (group_value (take n row) k i))
                              (range 0 (L `div` k))) smiles) as Hrows.
  { rewrite (transform_bit_batch smiles L k) by (done || lia).
    apply mapM_ext_in. intros row _. apply mapM_ext_in. intros i Hi.
    unfold range in Hi. apply elem_of_seqZ in Hi.
    rewrite group_value_take; [done|lia..|nia]. }
  assert (is_Ok (transform_to_vla smiles k)) as [m Hm].
  { rewrite (transform_bit_batch smiles L k) by (done || lia).
    apply mapM_is_Ok. intros row Hrow. apply mapM_is_Ok. intros i Hi.
    unfold range in Hi. apply elem_of_seqZ in Hi.
    apply list_elem_of_lookup in Hrow as [i1 Hrow].
    destruct (bit_batch_lookup _ _ _ _ Hb Hrow) as [Hbits Hlen].
    apply float_of_int_in_range.
    pose proof (group_value_bound row k i Hbits ltac:(lia) ltac:(lia)
                  ltac:(nia)) as Hbound.
    assert (2 ^ k ≤ 2 ^ 1023) by (apply Z.pow_le_mono_r; lia). lia. }
  exists m. split; [done|]. rewrite Hm in Hrows. symmetry in Hrows.
  destruct (mapM_rows_shape _ _ _ _ Hcols Hrows) as [Hrowsn Hcolsn].
  split_and!; [done..| |].
  - apply mapM_Ok_Forall2 in Hrows.
    eapply Forall2_impl; [exact Hrows|]. intros row r Hr.
    by apply mapM_Ok_Forall2 in Hr.
  - intros smiles' Hpre. rewrite <- Hm, !transform_to_vla_cells.
    destruct Hpre as [|row0 row0' rest rest' [Hlen0 Htake0] Hrest]; [done|].
    assert ((row0 :: rest) !! 0%nat = Some row0) as H0 by done.
    destruct (bit_batch_lookup _ _ _ _ Hb H0) as [_ HL].
    rewrite (getitem_0 (row0' :: rest') row0'), (getitem_0 _ row0) by done.
    step_bind. rewrite Hlen0, HL.
    assert (len (row0' :: rest') = len (row0 :: rest)) as ->.
    { unfold len. simpl. apply Forall2_length in Hrest. lia. }
    unfold floordiv. rewrite bool_decide_false by lia. step_bind.
    destruct (np_zeros _ _) as [z|e]; [|done]. step_bind.
    apply mapM_ext_in. intros i1 Hi1. apply mapM_ext_in. intros i Hi.
    unfold range in Hi1, Hi. apply elem_of_seqZ in Hi1, Hi.
    apply (cell_value_prefix _ _ k i1 i n); [|lia..|nia].
    constructor; [done|].
    eapply Forall2_impl; [exact Hrest|]. by intros s s' [_ ?].
Qed.

Lemma transform_truncates_witness :
  let n := Z.to_nat (3 `div` 2 * 2) in
  ∃ m,
    transform_to_vla [[48; 49; 48]%N] 2 = Ok m
    ∧ len m = len [[48; 49; 48]%N]
    ∧ Forall (λ r, len r = 3 `div` 2) m
    ∧ Forall2 (λ row r,
        Forall2 (λ i v, float_of_int (group_value (take n row) 2 i) = Ok v)
                (range 0 (3 `div` 2)) r) [[48; 49; 48]%N] m
    ∧ ∀ smiles',
        Forall2 (λ s s', len s' = 3 ∧ take n s' = take n s)
                [[48; 49; 48]%N] smiles' →
        transform_to_vla smiles' 2 = Ok m.
Proof.
  apply (transform_truncates [[48; 49; 48]%N] 3 2).
  - discriminate.
  - repeat constructor; by right.
  - lia.
  - intros [q Hq]; lia.
  - lia.
Defined.

(** ** The sentinel step *)

Lemma read_bits_range (smiles : list str) (i1 : Z) (js : list Z)
    (bits : list Z) :
  Forall bit_string smiles →
  mapM (λ j, row ← getitem smiles i1; c ← getitem row j; py_int c) js
  = Ok bits →
  Forall (λ b, b = 0 ∨ b = 1) bits.
Proof.
  intros Hsm Hm. apply mapM_Ok_Forall2 in Hm.
  eapply Forall2_Forall_r; [exact Hm|]. apply Forall_forall.
  intros j _ b Hb.
  destruct (getitem smiles i1) as [row|e] eqn:Hrow;
    [|by rewrite bind_Err in Hb].
  rewrite bind_Ok in Hb. cbv beta in Hb.
  destruct (getitem row j) as [c|e] eqn:Hc; [|by rewrite bind_Err in Hb].
  rewrite bind_Ok in Hb. revert Hb. apply py_int_bit_range.
  apply getitem_Ok_elem_of in Hrow, Hc.
  rewrite Forall_forall in Hsm. specialize (Hsm row Hrow).
  unfold bit_string in Hsm. rewrite Forall_forall in Hsm. by apply Hsm.
Qed.

Lemma cell_step_simplified_eq (smiles : list str) (k i1 i : Z)
    (vla : matrix) :
  Forall bit_string smiles →
  cell_step smiles k i1 vla i = cell_step_simplified smiles k i1 vla i.
Proof.
  intros Hsm. unfold cell_step, cell_step_simplified.
  destruct (mapM _ _) as [bits|e] eqn:Hm; [|done]. step_bind.
  pose proof (read_bits_range _ _ _ _ Hsm Hm) as Hbits.
  by rewrite clamp_bits_id, sentinel_bits_id by done.
Qed.

(** C9. On a batch of equal-length strings over '0', '1' and a [k]
    dividing the common length, the transform with the sentinel rewrite
    and the second computation of [r20] returns exactly what the simplified
    transform without that step returns. *)
Theorem sentinel_step_noop (smiles : list str) (L k : Z) :
  bit_batch L smiles → (k | L) →
  transform_to_vla smiles k = transform_simplified smiles k.
Proof.
  intros Hb _. unfold transform_to_vla, transform_simplified.
  destruct (getitem smiles 0) as [row0|e]; [|done]. step_bind.
  destruct (floordiv _ _) as [cols|e]; [|done]. step_bind.
  destruct (np_zeros _ _) as [z|e]; [|done]. step_bind.
  apply for_each_ext. intros vla i1 _.
  apply for_each_ext. intros vla' i _.
  apply cell_step_simplified_eq.
  eapply Forall_impl; [exact Hb|]. by intros s [? _].
Qed.

Lemma sentinel_step_noop_witness :
  transform_to_vla [[48; 49; 48; 48]%N; [49; 49; 48; 49]%N] 2
  = transform_simplified [[48; 49; 48; 48]%N; [49; 49; 48; 49]%N] 2.
Proof.
  apply (sentinel_step_noop [[48; 49; 48; 48]%N; [49; 49; 48; 49]%N] 4 2).
  - repeat constructor; (by left) || (by right).
  - by exists 2.
Defined.

(** The alphabet matters: on a digit 2 the two transforms differ. *)
Example sentinel_step_on_digit_2 :
  transform_to_vla [[50]%N] 1 = Ok [[0]]
  ∧ transform_simplified [[50]%N] 1 = Ok [[2]].
Proof. split; reflexivity. Qed.

(** ** How far the cells are exact *)

Lemma mapM_Ok_fmap {A B} (f : A → result B) (g : A → B) (l : list A) :
  (∀ x, x ∈ l → f x = Ok (g x)) → mapM f l = Ok (g <$> l).
Proof.
  intros Hf. apply mapM_Forall2_Ok, Forall2_fmap_r, Forall_Forall2_diag.
  by apply Forall_forall.
Qed.

(** Up to [k = 53] every cell holds exactly the value of its group. *)
Lemma transform_exact_small (smiles : list str) (L k : Z) :
  smiles ≠ [] → bit_batch L smiles → 1 ≤ k ≤ 53 →
  transform_to_vla smiles k
  = Ok ((λ row, (λ i, group_value row k i) <$> range 0 (L `div` k))
          <$> smiles).
Proof.
  intros Hne Hb Hk. rewrite (transform_bit_batch smiles L k) by (done || lia).
  pose proof (Z.mul_div_le L k ltac:(lia)) as Hdiv.
  apply mapM_Ok_fmap. intros row Hrow. apply mapM_Ok_fmap. intros i Hi.
  unfold range in Hi. apply elem_of_seqZ in Hi.
  apply list_elem_of_lookup in Hrow as [i1 Hrow].
  destruct (bit_batch_lookup _ _ _ _ Hb Hrow) as [Hbits Hlen].
  apply float_of_int_exact.
  pose proof (group_value_bound row k i Hbits ltac:(lia) ltac:(lia)
                ltac:(nia)) as Hbound.
  assert (2 ^ k ≤ 2 ^ 53) by (apply Z.pow_le_mono_r; lia). lia.
Qed.

(** A group of zeros weighs 0, whatever [k]. *)
Lemma weighted_sum_zeros (n : nat) :
  weighted_sum (Z.of_nat n) (replicate n 0) = 0.
Proof.
  induction n as [|n IH]; [done|].
  rewrite replicate_S, weighted_sum_cons, IH. lia.
Qed.

(** A group of '0' characters has value 0 and leaves 0 in its cell,
    whatever [k]. *)
Lemma zero_group_value (row : str) (k i : Z) :
  0 ≤ k → 0 ≤ i → (i + 1) * k ≤ len row →
  Forall (λ c, c = chr_0) (take (Z.to_nat k) (drop (Z.to_nat (i * k)) row)) →
  group_value row k i = 0 ∧ float_of_int (group_value row k i) = Ok 0.
Proof.
  intros Hk Hi Hlen Hz.
  assert (group_value row k i = 0) as ->; [|done].
  unfold group_value, group_bits.
  assert (take (Z.to_nat k) (drop (Z.to_nat (i * k)) row)
          = replicate (Z.to_nat k) chr_0) as ->.
  { symmetry. apply replicate_as_Forall. split.
    - rewrite length_take, length_drop. unfold len in Hlen. nia.
    - eapply Forall_impl; [exact Hz|]. by intros c ->. }
  rewrite fmap_replicate. change (Z.of_N chr_0 - 48) with 0.
  rewrite <- (Z2Nat.id k) at 1 by done. apply weighted_sum_zeros.
Qed.

(** C1, on the code: with [k = 56] the cell of the row encoding "CCCCCCC"
    does not hold the positional value of its 56 bits, 18932779609965379,
    but the nearest [float64], 18932779609965380. *)
Theorem heptane_cell_is_rounded :
  encode [str_heptane] = Ok [smiles_to_binary str_heptane 56]
  ∧ bit_batch 56 [smiles_to_binary str_heptane 56]
  ∧ 56 ∈ find_divisors 56
  ∧ group_value (smiles_to_binary str_heptane 56) 56 0 = 18932779609965379
  ∧ transform_to_vla [smiles_to_binary str_heptane 56] 56
    = Ok [[18932779609965380]].
Proof.
  split_and!; [reflexivity| | |by vm_compute|by vm_compute].
  - constructor; [|constructor]. split; [|reflexivity].
    unfold bit_string. compute_done.
  - apply elem_of_find_divisors. split; [lia|reflexivity].
Qed.

(** C4, on the code: with [k = 56] the cell of a row of 56 ones holds
    [2 ^ 56], which is not below [2 ^ 56]: the value [2 ^ 56 - 1] of the
    group is rounded up when it is stored. *)
Theorem all_ones_cell_reaches_bound :
  encode [str_y7] = Ok [replicate 56 chr_1]
  ∧ bit_batch 56 [replicate 56 chr_1]
  ∧ 56 ∈ find_divisors 56
  ∧ group_value (replicate 56 chr_1) 56 0 = 2 ^ 56 - 1
  ∧ transform_to_vla [replicate 56 chr_1] 56 = Ok [[2 ^ 56]].
Proof.
  split_and!; [reflexivity| | |by vm_compute|by vm_compute].
  - constructor; [|constructor]. split; [|reflexivity].
    apply Forall_replicate. by right.
  - apply elem_of_find_divisors. split; [lia|reflexivity].
Qed.

(** The same store aborts the whole run on a long input line: for a line of
    129 characters the last divisor is [k = 1032], the single group of a row
    is worth more than the largest [float64], and [process_smiles_file]
    ends with [OverflowError] after having written the other files. *)
Example long_line_overflows :
  1032 ∈ find_divisors (len (smiles_to_binary str_c129 1032))
  ∧ transform_to_vla [smiles_to_binary str_c129 1032] 1032
    = Err OverflowError
  ∧ snd (process_smiles_file [str_c129]) = Err OverflowError
  ∧ length (fst (process_smiles_file [str_c129])) = 16%nat.
Proof.
  split_and!; [|by vm_compute..].
  apply elem_of_find_divisors. by vm_compute.
Qed.

(** ** The encoded batch, for every input *)

Lemma bit_string_bin_pos (p : positive) (acc : str) :
  bit_string acc → bit_string (bin_pos p acc).
Proof.
  revert acc. induction p as [p IH|p IH|]; intros acc Hacc; simpl.
  - apply IH. constructor; [by right|done].
  - apply IH. constructor; [by left|done].
  - constructor; [by right|done].
Qed.

Lemma bit_string_format_08b (c : char) : bit_string (format_08b (ord c)).
Proof.
  unfold format_08b, ord. rewrite bool_decide_false by lia.
  apply Forall_app. split; [apply Forall_replicate; by left|].
  destruct c as [|p]; simpl.
  - constructor; [by left|constructor].
  - apply bit_string_bin_pos. constructor.
Qed.

Lemma bit_string_smiles_to_binary (s : str) (L : Z) :
  bit_string (smiles_to_binary s L).
Proof.
  unfold smiles_to_binary. rewrite str_mul_singleton.
  apply Forall_app. split; [|apply Forall_replicate; by left].
  induction s as [|c s IH]; csimpl; [constructor|].
  apply Forall_app. split; [apply bit_string_format_08b|done].
Qed.

Lemma max_length_unique (raw : list str) (M M' : Z) :
  max_length raw M → max_length raw M' → M = M'.
Proof.
  intros [Hle (s & Hs & <-)] [Hle' (s' & Hs' & <-)].
  specialize (Hle s' Hs'). specialize (Hle' s Hs). lia.
Qed.

(** X1. A non-empty batch is always encoded, whatever its code points:
    every encoded string is over '0', '1' and has at least [8 * M]
    characters, [M] being the maximal character length, and exactly
    [8 * M] when the code points of its raw string fit in 8 bits. *)
Theorem encode_bit_strings (raw : list str) :
  raw ≠ [] →
  ∃ M enc,
    max_length raw M
    ∧ encode raw = Ok enc
    ∧ Forall2 (λ s e,
        bit_string e ∧ 8 * M ≤ len e ∧ (byte_string s → len e = 8 * M))
        raw enc.
Proof.
  intros Hraw. destruct (encode_nonempty raw Hraw) as (M & HM & Henc).
  exists M, ((λ smiles, smiles_to_binary smiles (M * 8)) <$> raw).
  split_and!; [done..|].
  apply Forall2_fmap_r, Forall_Forall2_diag, Forall_forall.
  intros s Hs. unfold compose. split_and!.
  - apply bit_string_smiles_to_binary.
  - rewrite length_smiles_to_binary. lia.
  - intros Hbytes. destruct HM as [Hle _]. specialize (Hle s Hs).
    rewrite smiles_to_binary_bytes by done.
    unfold len in *. rewrite length_app, length_replicate, length_join_expand8.
    lia.
Qed.

Lemma encode_bit_strings_witness :
  ∃ M enc,
    max_length [[256%N]; str_AB] M
    ∧ encode [[256%N]; str_AB] = Ok enc
    ∧ Forall2 (λ s e,
        bit_string e ∧ 8 * M ≤ len e ∧ (byte_string s → len e = 8 * M))
        [[256%N]; str_AB] enc.
Proof. apply (encode_bit_strings [[256%N]; str_AB]). discriminate. Defined.

Lemma encode_bit_batch (raw : list str) (M : Z) :
  raw ≠ [] → Forall byte_string raw → max_length raw M →
  encode raw = Ok ((λ smiles, smiles_to_binary smiles (M * 8)) <$> raw)
  ∧ 0 ≤ M
  ∧ bit_batch (8 * M) ((λ smiles, smiles_to_binary smiles (M * 8)) <$> raw).
Proof.
  intros Hraw Hbytes HM.
  destruct (encode_nonempty raw Hraw) as (M' & HM' & Henc).
  rewrite (max_length_unique _ _ _ HM' HM) in *. split_and!; [done| |].
  - destruct HM as [_ (s & _ & <-)]. unfold len. lia.
  - unfold bit_batch. rewrite Forall_fmap. rewrite Forall_forall in Hbytes.
    apply Forall_forall. intros s Hs. unfold compose. split.
    + apply bit_string_smiles_to_binary.
    + destruct HM as [Hle _]. specialize (Hle s Hs).
      rewrite smiles_to_binary_bytes by auto.
      unfold len in *.
      rewrite length_app, length_replicate, length_join_expand8. lia.
Qed.

(** ** A run of [process_smiles_file] that goes through *)

Lemma transform_bit_batch_ok (smiles : list str) (L k : Z) :
  smiles ≠ [] → bit_batch L smiles → 1 ≤ k ≤ 1023 →
  ∃ m, transform_to_vla smiles k = Ok m
     ∧ len m = len smiles
     ∧ Forall (λ r, len r = L `div` k) m.
Proof.
  intros Hne Hb Hk.
  assert (smiles !! 0%nat = Some (default [] (head smiles))) as H0
    by by destruct smiles.
  destruct (bit_batch_lookup _ _ _ _ Hb H0) as [_ HL].
  assert (0 ≤ L) by (unfold len in HL; lia).
  assert (0 ≤ L `div` k) as Hcols by (apply Z.div_pos; lia).
  pose proof (Z.mul_div_le L k ltac:(lia)) as Hdiv.
  assert (is_Ok (transform_to_vla smiles k)) as [m Hm].
  { rewrite (transform_bit_batch smiles L k) by (done || lia).
    apply mapM_is_Ok. intros row Hrow. apply mapM_is_Ok. intros i Hi.
    unfold range in Hi. apply elem_of_seqZ in Hi.
    apply list_elem_of_lookup in Hrow as [i1 Hrow].
    destruct (bit_batch_lookup _ _ _ _ Hb Hrow) as [Hbits Hlen].
    apply float_of_int_in_range.
    pose proof (group_value_bound row k i Hbits ltac:(lia) ltac:(lia)
                  ltac:(nia)) as Hbound.
    assert (2 ^ k ≤ 2 ^ 1023) by (apply Z.pow_le_mono_r; lia). lia. }
  exists m. split; [done|].
  rewrite (transform_bit_batch smiles L k) in Hm by (done || lia).
  exact (mapM_rows_shape (λ row i, float_of_int (group_value row k i))
           _ _ _ Hcols Hm).
Qed.

Lemma write_vla_all (binary_sequences : list str) (divisors : list Z)
    (mats : list matrix) (log : list artifact) :
  Forall2 (λ k m, transform_to_vla binary_sequences k = Ok m) divisors mats →
  write_vla binary_sequences divisors log
  = (log ++ zip_with VlaOutput divisors mats, Ok ()).
Proof.
  intros Hall. revert log.
  induction Hall as [|k m ks ms Hk _ IH]; intros log; simpl.
  - by rewrite app_nil_r.
  - rewrite Hk, IH. by rewrite <- app_assoc.
Qed.

(** X2. On a non-empty batch of raw strings with code points up to 255
    and at most 127 characters each, [process_smiles_file] ends without an
    exception; it writes the encoded batch and then, for every divisor [k]
    of [L = 8 * M] in ascending order, the matrix of [k], which has one row
    for each raw string and [L / k] columns, with [k] times the number of
    columns equal to [L]: no bit is left out. *)
Theorem process_smiles_file_writes (raw : list str) (M : Z) :
  raw ≠ [] → Forall byte_string raw → max_length raw M → 8 * M ≤ 1023 →
  ∃ enc mats,
    encode raw = Ok enc
    ∧ process_smiles_file raw
      = (BinaryOutput enc :: zip_with VlaOutput (find_divisors (8 * M)) mats,
         Ok ())
    ∧ Forall2 (λ k m,
        transform_to_vla enc k = Ok m
        ∧ len m = len raw
        ∧ Forall (λ r, len r * k = 8 * M) m) (find_divisors (8 * M)) mats.
Proof.
  intros Hraw Hbytes HM Hsmall.
  destruct (encode_bit_batch raw M Hraw Hbytes HM) as (Henc & HM0 & Hb).
  set (enc := (λ smiles, smiles_to_binary smiles (M * 8)) <$> raw) in *.
  assert (enc ≠ []) as Hne by (unfold enc; by destruct raw).
  assert (len enc = len raw) as Hlen
    by (unfold enc, len; by rewrite length_fmap).
  assert (∃ mats, Forall2 (λ k m,
            transform_to_vla enc k = Ok m
            ∧ len m = len raw
            ∧ Forall (λ r, len r * k = 8 * M) m) (find_divisors (8 * M)) mats)
    as [mats Hmats].
  { assert (Forall (λ k, 1 ≤ k ≤ 8 * M ∧ (8 * M) `mod` k = 0)
              (find_divisors (8 * M))) as Hdivs.
    { apply Forall_forall. intros k. apply elem_of_find_divisors. }
    induction Hdivs as [|k ks [Hk Hmod] _ [ms IH]]; [by exists []|].
    destruct (transform_bit_batch_ok enc (8 * M) k Hne Hb ltac:(lia))
      as (m & Hm & Hrows & Hcols).
    exists (m :: ms). constructor; [|done]. split_and!; [done|lia|].
    eapply Forall_impl; [exact Hcols|]. intros r ->.
    pose proof (Z.div_mod (8 * M) k ltac:(lia)). lia. }
  exists enc, mats. split_and!; [done| |done].
  unfold process_smiles_file. rewrite Henc.
  destruct enc as [|s0 rest] eqn:Henc0; [done|].
  assert ((s0 :: rest) !! 0%nat = Some s0) as H0 by done.
  destruct (bit_batch_lookup _ _ _ _ Hb H0) as [_ HL].
  rewrite (getitem_0 _ s0 H0). cbv zeta. rewrite HL.
  rewrite (write_vla_all _ _ mats); [done|].
  eapply Forall2_impl; [exact Hmats|]. by intros k m [? _].
Qed.

Lemma process_smiles_file_writes_witness :
  ∃ enc mats,
    encode [str_A; str_AB] = Ok enc
    ∧ process_smiles_file [str_A; str_AB]
      = (BinaryOutput enc :: zip_with VlaOutput (find_divisors (8 * 2)) mats,
         Ok ())
    ∧ Forall2 (λ k m,
        transform_to_vla enc k = Ok m
        ∧ len m = len [str_A; str_AB]
        ∧ Forall (λ r, len r * k = 8 * 2) m) (find_divisors (8 * 2)) mats.
Proof.
  apply (process_smiles_file_writes [str_A; str_AB] 2).
  - discriminate.
  - repeat constructor; unfold N.le; simpl; discriminate.
  - split.
    + intros s Hs. apply elem_of_cons in Hs as [->|Hs]; [by vm_compute|].
      apply elem_of_cons in Hs as [->|Hs]; [by vm_compute|].
      by apply elem_of_nil in Hs.
    + exists str_AB. split; [|done]. right. left.
  - lia.
Defined.

(** ** Groups of a row, one after the other *)

Lemma py_sum_imap_zero (f : nat → Z → Z) (bs : list Z) :
  (∀ idx, f idx 0 = 0) → Forall (λ b, b = 0) bs → py_sum (imap f bs) = 0.
Proof.
  intros Hf Hbs. revert f Hf.
  induction Hbs as [|b bs -> _ IH]; intros f Hf; [done|].
  rewrite imap_cons, py_sum_cons, Hf, IH; [done|].
  intros idx. apply Hf.
Qed.

Lemma weighted_sum_all_zero (k : Z) (bs : list Z) :
  Forall (λ b, b = 0) bs → weighted_sum k bs = 0.
Proof. intros Hbs. apply py_sum_imap_zero; [intros; lia|done]. Qed.

Lemma group_value_zeros (n : nat) (k i : Z) :
  group_value (replicate n chr_0) k i = 0.
Proof.
  unfold group_value, group_bits. apply weighted_sum_all_zero.
  rewrite drop_replicate, take_replicate, fmap_replicate.
  by apply Forall_replicate.
Qed.

Lemma group_value_shift (pre r : str) (k i : Z) :
  len pre = k → 0 ≤ i →
  group_value (pre ++ r) k (i + 1) = group_value r k i.
Proof.
  intros Hpre Hi. unfold group_value, group_bits. do 3 f_equal.
  unfold len in Hpre.
  replace (Z.to_nat ((i + 1) * k)) with (length pre + Z.to_nat (i * k))%nat
    by nia.
  apply drop_app_add.
Qed.

Lemma groups_cons (pre r : str) (k : Z) (n : nat) :
  len pre = k →
  (λ i, group_value (pre ++ r) k i) <$> seqZ 0 (Z.of_nat (S n))
  = group_value (pre ++ r) k 0
    :: ((λ i, group_value r k i) <$> seqZ 0 (Z.of_nat n)).
Proof.
  intros Hpre. rewrite seqZ_cons by lia. rewrite fmap_cons. f_equal.
  replace (Z.pred (Z.of_nat (S n))) with (Z.of_nat n) by lia.
  change (Z.succ 0) with (1 + 0). rewrite <- fmap_add_seqZ.
  rewrite <- list_fmap_compose. apply list_fmap_ext.
  intros j i Hi. apply lookup_seqZ in Hi as [-> _]. unfold compose.
  rewrite Z.add_0_l, Z.add_comm. apply group_value_shift; [done|lia].
Qed.

Lemma groups_zeros (pad : nat) (k : Z) (n : nat) :
  (λ i, group_value (replicate pad chr_0) k i) <$> seqZ 0 (Z.of_nat n)
  = replicate n 0.
Proof.
  symmetry. apply replicate_as_Forall. split.
  - by rewrite length_fmap, length_seqZ, Nat2Z.id.
  - apply Forall_fmap, Forall_forall. intros i _. unfold compose.
    by rewrite group_value_zeros.
Qed.

Lemma expand8_values :
  Forall (λ c, weighted_sum 8 ((λ d, Z.of_N d - 48) <$> expand8 c) = ord c)
         (N.of_nat <$> seq 0 256).
Proof. compute_done. Qed.

Lemma group_value_head_expand8 (c : char) (r : str) :
  (c ≤ 255)%N → group_value (expand8 c ++ r) 8 0 = ord c.
Proof.
  intros Hc. unfold group_value, group_bits.
  rewrite drop_0, take_app_length' by done.
  pose proof expand8_values as HF. rewrite Forall_forall in HF. apply HF.
  apply list_elem_of_fmap. exists (N.to_nat c). split; [by rewrite N2Nat.id|].
  apply elem_of_seq. lia.
Qed.

Lemma groups_of_bytes (s : str) (pad : nat) :
  byte_string s →
  ∀ n : nat, (length s ≤ n)%nat →
    (λ i, group_value (mjoin (expand8 <$> s) ++ replicate pad chr_0) 8 i)
      <$> seqZ 0 (Z.of_nat n)
    = (ord <$> s) ++ replicate (n - length s) 0.
Proof.
  induction 1 as [|c s Hc _ IH]; intros n Hn.
  - csimpl. rewrite groups_zeros. f_equal. lia.
  - destruct n as [|n]; [simpl in Hn; lia|].
    change (mjoin (expand8 <$> c :: s))
      with (expand8 c ++ mjoin (expand8 <$> s)).
    change (S n - length (c :: s))%nat with (n - length s)%nat.
    rewrite fmap_cons.
    rewrite <- app_assoc, groups_cons by done.
    rewrite group_value_head_expand8 by done.
    rewrite <- app_comm_cons. f_equal.
    apply IH. simpl in Hn. lia.
Qed.

(** X3. With [k = 8] the transform gives the raw strings back: on the
    encoding of a non-empty batch with code points up to 255, row [i] of the
    matrix is the list of the code points of raw string [i], followed by
    zeros up to the maximal length [M]. *)
Theorem transform_8_code_points (raw : list str) (M : Z) :
  raw ≠ [] → Forall byte_string raw → max_length raw M →
  ∃ enc,
    encode raw = Ok enc
    ∧ transform_to_vla enc 8
      = Ok ((λ s, (ord <$> s) ++ replicate (Z.to_nat (M - len s)) 0) <$> raw).
Proof.
  intros Hraw Hbytes HM.
  destruct (encode_bit_batch raw M Hraw Hbytes HM) as (Henc & HM0 & Hb).
  eexists. split; [exact Henc|].
  rewrite (transform_exact_small _ (8 * M) 8); [|by destruct raw|done|lia].
  f_equal. rewrite <- list_fmap_compose. apply list_fmap_ext.
  intros i1 s Hs. unfold compose.
  apply list_elem_of_lookup_2 in Hs.
  rewrite Forall_forall in Hbytes. specialize (Hbytes s Hs).
  destruct HM as [Hle _]. specialize (Hle s Hs). unfold len in Hle.
  rewrite smiles_to_binary_bytes by done.
  unfold range. rewrite Z.sub_0_r.
  replace ((8 * M) `div` 8) with (Z.of_nat (Z.to_nat M))
    by (rewrite Z.mul_comm, Z.div_mul by lia; lia).
  rewrite groups_of_bytes by (done || lia). do 2 f_equal. unfold len. lia.
Qed.

Lemma transform_8_code_points_witness :
  ∃ enc,
    encode [str_A; str_AB] = Ok enc
    ∧ transform_to_vla enc 8
      = Ok ((λ s, (ord <$> s) ++ replicate (Z.to_nat (2 - len s)) 0)
              <$> [str_A; str_AB]).
Proof.
  apply (transform_8_code_points [str_A; str_AB] 2).
  - discriminate.
  - repeat constructor; unfold N.le; simpl; discriminate.
  - split.
    + intros s Hs. apply elem_of_cons in Hs as [->|Hs]; [by vm_compute|].
      apply elem_of_cons in Hs as [->|Hs]; [by vm_compute|].
      by apply elem_of_nil in Hs.
    + exists str_AB. split; [|done]. right. left.
Defined.

Lemma groups_of_bits (row : str) :
  (λ i, group_value row 1 i) <$> seqZ 0 (len row)
  = (λ c, Z.of_N c - 48) <$> row.
Proof.
  unfold len. induction row as [|c row IH]; [done|].
  change (c :: row) with ([c] ++ row).
  rewrite length_app, (groups_cons [c] row 1) by done.
  rewrite IH. csimpl. f_equal.
  unfold group_value, group_bits, weighted_sum, py_sum. simpl. lia.
Qed.

(** X4. With [k = 1] the transform gives the bits back: on a non-empty
    batch of bit strings of common length, row [i] of the matrix is the
    list of the bits of string [i]. *)
Theorem transform_1_bits (smiles : list str) (L : Z) :
  smiles ≠ [] → bit_batch L smiles →
  transform_to_vla smiles 1
  = Ok ((λ row : str, (λ c, Z.of_N c - 48) <$> row) <$> smiles).
Proof.
  intros Hne Hb. rewrite (transform_exact_small _ L 1) by (done || lia).
  f_equal. apply list_fmap_ext. intros i1 row Hrow.
  destruct (bit_batch_lookup _ _ _ _ Hb Hrow) as [_ <-].
  unfold range. rewrite Z.sub_0_r, Z.div_1_r. apply groups_of_bits.
Qed.

Lemma transform_1_bits_witness :
  transform_to_vla [[48; 49; 48]%N; [49; 49; 48]%N] 1
  = Ok ((λ row : str, (λ c, Z.of_N c - 48) <$> row)
          <$> [[48; 49; 48]%N; [49; 49; 48]%N]).
Proof.
  apply (transform_1_bits [[48; 49; 48]%N; [49; 49; 48]%N] 3).
  - discriminate.
  - repeat constructor; (by left) || (by right).
Defined.

(** X5. The padding gives zeros: in the matrix of any [k ≥ 1] computed on
    the encoding of a batch with code points up to 255, a cell whose group
    lies wholly after the [8 * len s] bits of its raw string [s] holds 0. *)
Theorem padding_cells_zero (raw enc : list str) (M k : Z) (m : matrix)
    (i1 : nat) (s : str) (i : Z) :
  Forall byte_string raw → max_length raw M →
  encode raw = Ok enc → 1 ≤ k →
  transform_to_vla enc k = Ok m →
  raw !! i1 = Some s →
  8 * len s ≤ i * k → (i + 1) * k ≤ 8 * M →
  ∃ r, m !! i1 = Some r ∧ r !! Z.to_nat i = Some 0.
Proof.
  intros Hbytes HM Henc Hk Hm Hs Hlo Hhi.
  assert (raw ≠ []) as Hraw by (intros ->; done).
  destruct (encode_bit_batch raw M Hraw Hbytes HM) as (Henc' & HM0 & Hb).
  rewrite Henc in Henc'. injection Henc' as ->.
  rewrite (transform_bit_batch _ (8 * M) k) in Hm; [|by destruct raw|done..].
  apply mapM_Ok_Forall2 in Hm.
  assert (((λ smiles, smiles_to_binary smiles (M * 8)) <$> raw) !! i1
          = Some (smiles_to_binary s (M * 8))) as Hrow
    by by rewrite list_lookup_fmap, Hs.
  destruct (Forall2_lookup_l _ _ _ _ _ Hm Hrow) as (r & Hr & Hcells).
  exists r. split; [done|].
  apply mapM_Ok_Forall2 in Hcells.
  assert (0 ≤ i) by (unfold len in Hlo; nia).
  assert (i + 1 ≤ (8 * M) `div` k) by (apply Z.div_le_lower_bound; lia).
  assert (range 0 ((8 * M) `div` k) !! Z.to_nat i = Some i) as Hi.
  { unfold range. rewrite lookup_seqZ_lt by lia. f_equal. lia. }
  destruct (Forall2_lookup_l _ _ _ _ _ Hcells Hi) as (v & Hv & Hval).
  rewrite Hv. f_equal.
  destruct (bit_batch_lookup _ _ _ _ Hb Hrow) as [_ Hlen].
  destruct (zero_group_value (smiles_to_binary s (M * 8)) k i)
    as [_ Hz]; [lia..| |congruence].
  rewrite Forall_forall in Hbytes.
  rewrite smiles_to_binary_bytes by (eapply Hbytes, list_elem_of_lookup_2, Hs).
  pose proof (length_join_expand8 s) as Hj. unfold len in Hlo.
  rewrite drop_app_ge by lia. rewrite drop_replicate, take_replicate.
  by apply Forall_replicate.
Qed.

Lemma padding_cells_zero_witness :
  ∃ r, [[65; 0]; [65; 66]] !! 0%nat = Some r ∧ r !! Z.to_nat 1 = Some 0.
Proof.
  apply (padding_cells_zero [str_A; str_AB]
           [smiles_to_binary str_A 16; smiles_to_binary str_AB 16]
           2 8 [[65; 0]; [65; 66]] 0 str_A 1).
  - repeat constructor; unfold N.le; simpl; discriminate.
  - split.
    + intros s Hs. apply elem_of_cons in Hs as [->|Hs]; [by vm_compute|].
      apply elem_of_cons in Hs as [->|Hs]; [by vm_compute|].
      by apply elem_of_nil in Hs.
    + exists str_AB. split; [|done]. right. left.
  - reflexivity.
  - lia.
  - by vm_compute.
  - reflexivity.
  - by vm_compute.
  - lia.
Defined.

(** ** The sentinel reading *)

Lemma py_int_range (c : char) (b : Z) : py_int c = Ok b → 0 ≤ b ≤ 9.
Proof.
  unfold py_int. destruct (List.find _ _) as [z|] eqn:Hz; [|done].
  intros [= <-]. apply List.find_some in Hz as [_ Hz].
  apply andb_prop in Hz as [H1%N.leb_le H2%N.ltb_lt]. lia.
Qed.

Lemma py_int_unknown_to_zero (c : char) :
  py_int (unknown_to_zero c)
  = (λ bit, if bool_decide (bit = 2) then 0 else bit) <$> py_int c.
Proof.
  unfold unknown_to_zero. destruct (py_int c) as [b|e] eqn:Hc; [|by rewrite Hc].
  change (py_int (if bool_decide (b = 2) then chr_0 else c)
          = Ok (if bool_decide (b = 2) then 0 else b)).
  case_bool_decide; [done|exact Hc].
Qed.

Lemma len_fmap {A B} (f : A → B) (l : list A) : len (f <$> l) = len l.
Proof. unfold len. by rewrite length_fmap. Qed.

Lemma getitem_fmap {A B} (f : A → B) (l : list A) (i : Z) :
  getitem (f <$> l) i = f <$> getitem l i.
Proof.
  unfold getitem, len. rewrite length_fmap, list_lookup_fmap.
  case_bool_decide; [|done]. by destruct (l !! _).
Qed.

Lemma mapM_fmap_result {A B} (f : B → B) (g h : A → result B) (l : list A) :
  (∀ x, x ∈ l → g x = f <$> h x) → mapM g l = fmap f <$> mapM h l.
Proof.
  induction l as [|x l IH]; intros Hg; [done|].
  rewrite !mapM_cons, Hg by left.
  destruct (h x) as [y|e]; [|done].
  rewrite IH by (intros y' Hy'; apply Hg; by right).
  by destruct (mapM h l).
Qed.

Lemma weighted_sum_shrink (w : nat → Z) (bs bs' : list Z) :
  (∀ idx, 0 ≤ w idx) →
  Forall2 (λ b b', 0 ≤ b' ≤ b) bs bs' →
  0 ≤ py_sum (imap (λ idx bit, bit * w idx) bs')
    ≤ py_sum (imap (λ idx bit, bit * w idx) bs).
Proof.
  intros Hw Hbs. revert w Hw.
  induction Hbs as [|b b' bs bs' Hb _ IH]; intros w Hw; [done|].
  rewrite !imap_cons, !py_sum_cons.
  specialize (IH (w ∘ S) (λ idx, Hw (S idx))).
  pose proof (Hw 0%nat). unfold compose in *. cbv beta in *. nia.
Qed.

Lemma sentinel_weighs_less (k : Z) (bits : list Z) :
  Forall (λ b, 0 ≤ b) bits →
  0 ≤ weighted_sum k
        ((λ bit, if bool_decide (bit = 2) then 0 else bit) <$> bits)
    ≤ weighted_sum k bits.
Proof.
  intros Hbits. unfold weighted_sum.
  apply (weighted_sum_shrink (λ idx, 2 ^ (k - Z.of_nat idx - 1))).
  - intros idx. apply Z.pow_nonneg. lia.
  - apply Forall2_fmap_r, Forall_Forall2_diag.
    eapply Forall_impl; [exact Hbits|]. intros b Hb. unfold compose.
    cbv beta in *. case_bool_decide; lia.
Qed.

Lemma clamp_nonneg_id (bits : list Z) :
  Forall (λ b, 0 ≤ b) bits →
  (λ bit, if bool_decide (bit >= 0) then bit else 2) <$> bits = bits.
Proof.
  intros Hbits. rewrite <- (list_fmap_id bits) at 2.
  apply Forall_fmap_ext. eapply Forall_impl; [exact Hbits|].
  intros b Hb. cbv beta in *. by rewrite bool_decide_true by lia.
Qed.

Lemma sentinel_twice (bits : list Z) :
  (λ bit, if bool_decide (bit = 2) then 0 else bit)
    <$> ((λ bit, if bool_decide (bit = 2) then 0 else bit) <$> bits)
  = (λ bit, if bool_decide (bit = 2) then 0 else bit) <$> bits.
Proof.
  rewrite <- list_fmap_compose. apply list_fmap_ext. intros _ b _.
  unfold compose. by repeat case_bool_decide.
Qed.

Lemma read_bits_nonneg (smiles : list str) (i1 : Z) (js : list Z)
    (bits : list Z) :
  mapM (λ j, row ← getitem smiles i1; c ← getitem row j; py_int c) js
  = Ok bits →
  Forall (λ b, 0 ≤ b ≤ 9) bits.
Proof.
  intros Hm. apply mapM_Ok_Forall2 in Hm.
  eapply Forall2_Forall_r; [exact Hm|]. apply Forall_forall.
  intros j _ b Hb.
  destruct (getitem smiles i1) as [row|e]; [|by rewrite bind_Err in Hb].
  rewrite bind_Ok in Hb. cbv beta in Hb.
  destruct (getitem row j) as [c|e]; [|by rewrite bind_Err in Hb].
  rewrite bind_Ok in Hb. by apply py_int_range in Hb.
Qed.

Lemma cell_value_unknown_to_zero (smiles : list str) (k i1 i : Z) :
  cell_value ((λ row : str, unknown_to_zero <$> row) <$> smiles) k i1 i
  = cell_value smiles k i1 i.
Proof.
  unfold cell_value.
  rewrite (mapM_fmap_result
             (λ bit, if bool_decide (bit = 2) then 0 else bit) _
             (λ j, row ← getitem smiles i1; c ← getitem row j; py_int c));
    last first.
  { intros j _. rewrite getitem_fmap.
    destruct (getitem smiles i1) as [row|e]; [|done]. simpl. step_bind.
    rewrite getitem_fmap. destruct (getitem row j) as [c|e]; [|done].
    simpl. step_bind. apply py_int_unknown_to_zero. }
  destruct (mapM _ _) as [bits|e] eqn:Hm; [|done]. simpl. step_bind.
  pose proof (read_bits_nonneg _ _ _ _ Hm) as Hrange.
  assert (Forall (λ b, 0 ≤ b) bits) as Hbits
    by (eapply Forall_impl; [exact Hrange|]; simpl; lia).
  assert (Forall (λ b, 0 ≤ b)
            ((λ bit, if bool_decide (bit = 2) then 0 else bit) <$> bits))
    as Hbits'.
  { apply Forall_fmap. eapply Forall_impl; [exact Hbits|].
    intros b Hb. unfold compose. cbv beta in *. case_bool_decide; lia. }
  rewrite !clamp_nonneg_id, sentinel_twice by done.
  pose proof (sentinel_weighs_less k bits Hbits) as Hle.
  repeat case_bool_decide; try done; try lia.
  by replace (weighted_sum k _) with 0 by lia.
Qed.

(** X6. The digit 2 is the sentinel of the transform and counts as 0:
    for every batch and every [k], replacing each character that [int]
    reads as 2 by '0' changes neither the matrix nor the exception
    [transform_to_vla] ends with. *)
Theorem transform_unknown_to_zero (smiles : list str) (k : Z) :
  transform_to_vla ((λ row : str, unknown_to_zero <$> row) <$> smiles) k
  = transform_to_vla smiles k.
Proof.
  rewrite !transform_to_vla_cells. rewrite getitem_fmap.
  destruct (getitem smiles 0) as [row0|e]; [|done]. simpl. step_bind.
  rewrite !len_fmap.
  destruct (floordiv _ _) as [cols|e]; [|done]. step_bind.
  destruct (np_zeros _ _) as [z|e]; [|done]. step_bind.
  apply mapM_ext_in. intros i1 _. apply mapM_ext_in. intros i _.
  apply cell_value_unknown_to_zero.
Qed.

(** A row of digits 2 and 1 gives what the same row with '0' for '2'
    gives. *)
Example transform_unknown_to_zero_2121 :
  transform_to_vla [[50; 49; 50; 49]%N] 2 = Ok [[1; 1]]
  ∧ transform_to_vla [[48; 49; 48; 49]%N] 2 = Ok [[1; 1]].
Proof. split; reflexivity. Qed.

(** ** Which batches the transform accepts *)

Lemma mapM_is_Ok_inv {A B} (f : A → result B) (l : list A) (x : A) :
  is_Ok (mapM f l) → x ∈ l → is_Ok (f x).
Proof.
  intros [ys Hm] Hx. apply mapM_Ok_Forall2 in Hm.
  apply list_elem_of_lookup in Hx as [i Hi].
  destruct (Forall2_lookup_l _ _ _ _ _ Hm Hi) as (y & _ & Hy). by exists y.
Qed.

Lemma mapM_Ok_length {A B} (f : A → result B) (l : list A) (ys : list B) :
  mapM f l = Ok ys → length ys = length l.
Proof. intros Hm. symmetry. by eapply Forall2_length, mapM_Ok_Forall2. Qed.

Lemma read_is_Ok (smiles : list str) (i1 j : Z) :
  0 ≤ i1 → 0 ≤ j →
  is_Ok (row ← getitem smiles i1; c ← getitem row j; py_int c) ↔
  ∃ row c, smiles !! Z.to_nat i1 = Some row
         ∧ row !! Z.to_nat j = Some c
         ∧ decimal_digit c.
Proof.
  intros Hi1 Hj. rewrite getitem_nonneg by done.
  destruct (smiles !! Z.to_nat i1) as [row|] eqn:Hrow; step_bind; last first.
  { split; [by intros [? ?]|by intros (? & ? & ? & _)]. }
  rewrite getitem_nonneg by done.
  destruct (row !! Z.to_nat j) as [c|] eqn:Hc; step_bind; last first.
  { split; [by intros [? ?]|]. intros (? & ? & [= <-] & ? & _). congruence. }
  split.
  - intros Hd. by exists row, c.
  - intros (? & ? & [= <-] & Hc' & Hd). rewrite Hc in Hc'.
    by injection Hc' as <-.
Qed.

Lemma cell_value_Ok_reads (smiles : list str) (k i1 i j : Z) :
  is_Ok (cell_value smiles k i1 i) →
  i * k ≤ j < (i + 1) * k →
  is_Ok (row ← getitem smiles i1; c ← getitem row j; py_int c).
Proof.
  intros [v Hv] Hj. unfold cell_value in Hv.
  destruct (mapM _ _) as [bits|e] eqn:Hm; [|by rewrite bind_Err in Hv].
  apply (mapM_is_Ok_inv
           (λ j, row ← getitem smiles i1; c ← getitem row j; py_int c)
           (range (i * k) ((i + 1) * k)) j); [by exists bits|].
  unfold range. apply elem_of_seqZ. lia.
Qed.

Lemma weighted_sum_digits_bound (bs : list Z) :
  Forall (λ b, 0 ≤ b ≤ 9) bs →
  0 ≤ weighted_sum (len bs) bs ≤ 9 * (2 ^ len bs - 1).
Proof.
  unfold len. induction 1 as [|b bs Hb _ IH].
  - by vm_compute.
  - change (length (b :: bs)) with (S (length bs)).
    rewrite weighted_sum_cons, Nat2Z.inj_succ, Z.pow_succ_r by lia.
    assert (0 < 2 ^ Z.of_nat (length bs)) by (apply Z.pow_pos_nonneg; lia).
    nia.
Qed.

Lemma cell_value_digits_Ok (smiles : list str) (k i1 i : Z)
    (bits : list Z) :
  1 ≤ k ≤ 1019 →
  mapM (λ j, row ← getitem smiles i1; c ← getitem row j; py_int c)
       (range (i * k) ((i + 1) * k)) = Ok bits →
  is_Ok (cell_value smiles k i1 i).
Proof.
  intros Hk Hm. unfold cell_value. rewrite Hm. step_bind.
  pose proof (read_bits_nonneg _ _ _ _ Hm) as Hrange.
  assert (Forall (λ b, 0 ≤ b) bits) as Hbits
    by (eapply Forall_impl; [exact Hrange|]; simpl; lia).
  rewrite clamp_nonneg_id by done.
  case_bool_decide; [by eexists|].
  apply float_of_int_in_range.
  pose proof (sentinel_weighs_less k bits Hbits) as Hle.
  pose proof (weighted_sum_digits_bound bits Hrange) as Hup.
  assert (len bits = k) as Hlen.
  { unfold len. rewrite (mapM_Ok_length _ _ _ Hm). unfold range.
    rewrite length_seqZ. lia. }
  rewrite Hlen in Hup.
  assert (2 ^ (k + 4) ≤ 2 ^ 1023) by (apply Z.pow_le_mono_r; lia).
  assert (0 < 2 ^ k) by (apply Z.pow_pos_nonneg; lia).
  rewrite Z.pow_add_r in * by lia. lia.
Qed.

Lemma transform_Ok_reads (smiles : list str) (k : Z) (row0 : str) :
  1 ≤ k → is_Ok (transform_to_vla smiles k) →
  smiles !! 0%nat = Some row0 →
  Forall (λ row : str, ∀ j : nat,
            Z.of_nat j < len row0 `div` k * k →
            ∃ c, row !! j = Some c ∧ decimal_digit c) smiles.
Proof.
  intros Hk [m Hm] H0. rewrite transform_to_vla_cells in Hm.
  rewrite (getitem_0 _ _ H0) in Hm. revert Hm. step_bind.
  unfold floordiv. rewrite bool_decide_false by lia. step_bind.
  destruct (np_zeros _ _) as [z|e]; [|done]. step_bind. intros Hm.
  assert (0 ≤ len row0) by (unfold len; lia).
  apply Forall_forall. intros row Hrow j Hj.
  apply list_elem_of_lookup in Hrow as [i1 Hrow].
  assert (is_Ok (mapM (cell_value smiles k (Z.of_nat i1))
                      (range 0 (len row0 `div` k)))) as Hcells.
  { apply (mapM_is_Ok_inv
             (λ i1, mapM (cell_value smiles k i1) (range 0 (len row0 `div` k)))
             (range 0 (len smiles)) (Z.of_nat i1)); [by exists m|].
    unfold range. apply elem_of_seqZ.
    apply lookup_lt_Some in Hrow. unfold len. lia. }
  set (i := Z.of_nat j `div` k).
  pose proof (Z.div_mod (Z.of_nat j) k ltac:(lia)) as Hdm.
  pose proof (Z.mod_pos_bound (Z.of_nat j) k ltac:(lia)) as Hmod.
  assert (0 ≤ i) by (apply Z.div_pos; lia).
  assert (i < len row0 `div` k) by (fold i in Hdm; nia).
  assert (is_Ok (cell_value smiles k (Z.of_nat i1) i)) as Hcell.
  { apply (mapM_is_Ok_inv (cell_value smiles k (Z.of_nat i1))
             (range 0 (len row0 `div` k)) i Hcells). unfold range.
    apply elem_of_seqZ. lia. }
  apply (cell_value_Ok_reads _ _ _ _ (Z.of_nat j)) in Hcell;
    [|fold i in Hdm; nia].
  apply read_is_Ok in Hcell as (row' & c & Hrow' & Hc & Hd); [|lia..].
  rewrite Nat2Z.id in Hrow', Hc. exists c. split; [congruence|done].
Qed.

(** X7. For [1 ≤ k ≤ 1019], [transform_to_vla] returns a matrix exactly
    when the batch has a first row and every row holds a decimal digit at
    each of its first [(L0 // k) * k] positions, [L0] being the length of
    the first row: characters after these positions, and the lengths of
    the other rows beyond them, are not checked. *)
Theorem transform_succeeds_iff (smiles : list str) (k : Z) :
  1 ≤ k ≤ 1019 →
  is_Ok (transform_to_vla smiles k) ↔
  ∃ row0,
    smiles !! 0%nat = Some row0
    ∧ Forall (λ row : str, ∀ j : nat,
                Z.of_nat j < len row0 `div` k * k →
                ∃ c, row !! j = Some c ∧ decimal_digit c) smiles.
Proof.
  intros Hk. split.
  - intros Hok. destruct (smiles !! 0%nat) as [row0|] eqn:H0.
    + exists row0. split; [done|].
      apply (transform_Ok_reads smiles k row0); [lia|done..].
    + destruct Hok as [m Hm]. unfold transform_to_vla in Hm.
      rewrite getitem_nonneg in Hm by done.
      change (Z.to_nat 0) with 0%nat in Hm. rewrite H0 in Hm.
      by rewrite bind_Err in Hm.
  - intros (row0 & H0 & Hall). rewrite transform_to_vla_cells.
    rewrite (getitem_0 _ _ H0). step_bind.
    unfold floordiv. rewrite bool_decide_false by lia. step_bind.
    assert (0 ≤ len row0) by (unfold len; lia).
    assert (0 ≤ len row0 `div` k) by (apply Z.div_pos; lia).
    unfold np_zeros. rewrite bool_decide_false by (unfold len in *; lia).
    step_bind. apply mapM_is_Ok. intros i1 Hi1.
    apply mapM_is_Ok. intros i Hi.
    unfold range in Hi1, Hi. apply elem_of_seqZ in Hi1, Hi.
    destruct (lookup_lt_is_Some_2 smiles (Z.to_nat i1)) as [row Hrow];
      [unfold len in Hi1; lia|].
    rewrite Forall_forall in Hall.
    specialize (Hall row (list_elem_of_lookup_2 _ _ _ Hrow)).
    assert (is_Ok (mapM (λ j, row ← getitem smiles i1;
                              c ← getitem row j; py_int c)
                        (range (i * k) ((i + 1) * k)))) as [bits Hbits].
    { apply mapM_is_Ok. intros j Hj. unfold range in Hj.
      apply elem_of_seqZ in Hj. apply read_is_Ok; [lia|nia|].
      destruct (Hall (Z.to_nat j)) as (c & Hc & Hd); [nia|].
      by exists row, c. }
    by apply (cell_value_digits_Ok _ _ _ _ bits).
Qed.

Lemma transform_succeeds_iff_witness :
  is_Ok (transform_to_vla [[48; 57; 65]%N; [50; 51]%N] 2) ↔
  ∃ row0,
    [[48; 57; 65]%N; [50; 51]%N] !! 0%nat = Some row0
    ∧ Forall (λ row : str, ∀ j : nat,
                Z.of_nat j < len row0 `div` 2 * 2 →
                ∃ c, row !! j = Some c ∧ decimal_digit c)
             [[48; 57; 65]%N; [50; 51]%N].
Proof. apply (transform_succeeds_iff [[48; 57; 65]%N; [50; 51]%N] 2). lia. Defined.

(** The batch of the witness is accepted: its third character 'A' and the
    shorter second row lie outside the groups. *)
Example transform_accepts_ragged :
  transform_to_vla [[48; 57; 65]%N; [50; 51]%N] 2 = Ok [[9]; [3]].
Proof. reflexivity. Qed.

Lemma transform_bit_strings_Err (smiles : list str) (k : Z) (e : exn) :
  Forall bit_string smiles → 1 ≤ k ≤ 1023 →
  transform_to_vla smiles k = Err e → e = IndexError.
Proof.
  intros Hsm Hk. rewrite transform_to_vla_cells.
  destruct (getitem smiles 0) as [row0|e0] eqn:H0;
    [|rewrite bind_Err; intros [= <-]; by eapply getitem_Err].
  step_bind. unfold floordiv. rewrite bool_decide_false by lia. step_bind.
  assert (0 ≤ len row0) by (unfold len; lia).
  assert (0 ≤ len row0 `div` k) by (apply Z.div_pos; lia).
  unfold np_zeros. rewrite bool_decide_false by (unfold len in *; lia).
  step_bind. intros Hm.
  apply mapM_Err_inv in Hm as (i1 & _ & Hm).
  apply mapM_Err_inv in Hm as (i & _ & Hm).
  unfold cell_value in Hm.
  destruct (mapM _ _) as [bits|e'] eqn:Hread.
  - revert Hm. step_bind.
    pose proof (read_bits_range _ _ _ _ Hsm Hread) as Hbits.
    rewrite clamp_bits_id, sentinel_bits_id by done.
    case_bool_decide; [done|]. intros Hf. exfalso.
    destruct (float_of_int_in_range (weighted_sum k bits)) as [v Hv];
      [|congruence].
    pose proof (weighted_sum_bound bits Hbits) as Hb.
    assert (len bits = k) as Hlen.
    { unfold len. rewrite (mapM_Ok_length _ _ _ Hread). unfold range.
      rewrite length_seqZ. lia. }
    rewrite Hlen in Hb.
    assert (2 ^ k ≤ 2 ^ 1023) by (apply Z.pow_le_mono_r; lia). lia.
  - rewrite bind_Err in Hm. injection Hm as ->.
    apply mapM_Err_inv in Hread as (j & _ & Hj).
    destruct (getitem smiles i1) as [row|e1] eqn:Hrow;
      [|rewrite bind_Err in Hj; injection Hj as <-; by eapply getitem_Err].
    rewrite bind_Ok in Hj. cbv beta in Hj.
    destruct (getitem row j) as [c|e2] eqn:Hc;
      [|rewrite bind_Err in Hj; injection Hj as <-; by eapply getitem_Err].
    rewrite bind_Ok in Hj. cbv beta in Hj. exfalso.
    apply getitem_Ok_elem_of in Hrow, Hc.
    rewrite Forall_forall in Hsm. specialize (Hsm row Hrow).
    unfold bit_string in Hsm. rewrite Forall_forall in Hsm.
    rewrite py_int_bit in Hj by by apply Hsm. done.
Qed.

(** X8. The row length is taken from the first row only: on a batch of
    bit strings, with [1 ≤ k ≤ 1023], a row shorter than the
    [(L0 // k) * k] bits that are read ends [transform_to_vla] with
    [IndexError]. *)
Theorem short_row_IndexError (smiles : list str) (k : Z) (row0 row : str) :
  Forall bit_string smiles → 1 ≤ k ≤ 1023 →
  smiles !! 0%nat = Some row0 → row ∈ smiles →
  len row < len row0 `div` k * k →
  transform_to_vla smiles k = Err IndexError.
Proof.
  intros Hsm Hk H0 Hrow Hshort.
  destruct (transform_to_vla smiles k) as [m|e] eqn:Ht.
  - exfalso.
    pose proof (transform_Ok_reads smiles k row0 ltac:(lia)
                  ltac:(by exists m) H0) as Hall.
    rewrite Forall_forall in Hall.
    destruct (Hall row Hrow (length row)) as (c & Hc & _); [done|].
    apply lookup_lt_Some in Hc. lia.
  - f_equal. by eapply transform_bit_strings_Err.
Qed.

Lemma short_row_IndexError_witness :
  transform_to_vla [[48; 49; 48; 49]%N; [49; 49; 48]%N] 2 = Err IndexError.
Proof.
  apply (short_row_IndexError [[48; 49; 48; 49]%N; [49; 49; 48]%N] 2
           [48; 49; 48; 49]%N [49; 49; 48]%N).
  - repeat constructor; (by left) || (by right).
  - lia.
  - reflexivity.
  - right. left.
  - by vm_compute.
Defined.

(** X9. What [transform_to_vla] reads: for [k ≥ 1], its result, matrix or
    exception, depends only on the number of rows, on the length [L0] of the
    first row and on the first [(L0 // k) * k] characters of each row.  Two
    batches that agree on these give the same result, whatever else the
    rows hold and however long they are. *)
Theorem transform_reads_groups_only (smiles smiles' : list str) (k : Z)
    (row0 row0' : str) :
  1 ≤ k →
  smiles !! 0%nat = Some row0 → smiles' !! 0%nat = Some row0' →
  len row0' = len row0 →
  Forall2 (λ s s', take (Z.to_nat (len row0 `div` k * k)) s'
                   = take (Z.to_nat (len row0 `div` k * k)) s)
          smiles smiles' →
  transform_to_vla smiles' k = transform_to_vla smiles k.
Proof.
  intros Hk H0 H0' Hlen0 Hpre. rewrite !transform_to_vla_cells.
  rewrite (getitem_0 _ _ H0), (getitem_0 _ _ H0'). step_bind. rewrite Hlen0.
  assert (len smiles' = len smiles) as ->.
  { unfold len. f_equal. symmetry. by eapply Forall2_length. }
  unfold floordiv. rewrite bool_decide_false by lia. step_bind.
  destruct (np_zeros _ _) as [z|e]; [|done]. step_bind.
  assert (0 ≤ len row0) by (unfold len; lia).
  assert (0 ≤ len row0 `div` k) by (apply Z.div_pos; lia).
  apply mapM_ext_in. intros i1 Hi1. apply mapM_ext_in. intros i Hi.
  unfold range in Hi1, Hi. apply elem_of_seqZ in Hi1, Hi.
  apply (cell_value_prefix _ _ k i1 i
           (Z.to_nat (len row0 `div` k * k))); [done|lia..|nia].
Qed.

Lemma transform_reads_groups_only_witness :
  transform_to_vla [[48; 49; 49]%N; [49; 48]%N] 2
  = transform_to_vla [[48; 49; 48]%N; [49; 48; 65; 66]%N] 2.
Proof.
  apply (transform_reads_groups_only
           [[48; 49; 48]%N; [49; 48; 65; 66]%N]
           [[48; 49; 49]%N; [49; 48]%N] 2 [48; 49; 48]%N [48; 49; 49]%N).
  - lia.
  - reflexivity.
  - reflexivity.
  - reflexivity.
  - repeat constructor.
Defined.

(** ** More on the divisors *)

(** X10. The divisors come in pairs: if [k] is in [find_divisors n] then
    so is [n // k], and [k * (n // k) = n]; the number of columns of the
    matrix of one divisor is the group size of another. *)
Theorem find_divisors_cofactor (n k : Z) :
  k ∈ find_divisors n →
  n `div` k ∈ find_divisors n ∧ k * (n `div` k) = n.
Proof.
  intros [Hk Hmod]%elem_of_find_divisors.
  pose proof (Z.div_mod n k ltac:(lia)) as Hdm.
  assert (k * (n `div` k) = n) as Hprod by lia.
  split; [|done]. apply elem_of_find_divisors. split; [nia|].
  apply Z.mod_divide; [nia|]. exists k. lia.
Qed.

Lemma find_divisors_cofactor_witness :
  16 `div` 2 ∈ find_divisors 16 ∧ 2 * (16 `div` 2) = 16.
Proof.
  apply (find_divisors_cofactor 16 2).
  apply elem_of_find_divisors. split; [lia|reflexivity].
Defined.

(** ** How far a stored cell is from the value of its group *)

Lemma float_of_int_error (n v : Z) :
  0 ≤ n → float_of_int n = Ok v → 2 ^ 53 * Z.abs (v - n) ≤ n.
Proof.
  intros Hn. unfold float_of_int.
  case_bool_decide as He; [intros [= <-]; lia|].
  rewrite Z.abs_eq in * by lia.
  assert (0 < n) as Hpos.
  { destruct (decide (n = 0)) as [->|]; [|lia]. by destruct He. }
  set (e := Z.log2 n - 52) in *.
  destruct (Z.log2_spec n Hpos) as [Hlow _].
  assert (0 < 2 ^ (e - 1)) as Hhalf by (apply Z.pow_pos_nonneg; lia).
  assert (2 ^ e = 2 * 2 ^ (e - 1)) as He2.
  { rewrite <- Z.pow_succ_r by lia. f_equal. lia. }
  assert (2 ^ Z.log2 n = 2 ^ 53 * 2 ^ (e - 1)) as Hsplit.
  { rewrite <- Z.pow_add_r by lia. f_equal. lia. }
  rewrite Z.sgn_pos by done.
  rewrite !Z.shiftl_mul_pow2, Z.shiftr_div_pow2 by lia.
  pose proof (Z.div_mod n (2 ^ e) ltac:(lia)) as Hdm.
  pose proof (Z.mod_pos_bound n (2 ^ e) ltac:(lia)) as Hmod.
  case_bool_decide; [done|]. intros [= <-].
  case_bool_decide as Hup.
  - assert (2 ^ (e - 1) ≤ n - n `div` 2 ^ e * 2 ^ e) by lia. nia.
  - assert (n - n `div` 2 ^ e * 2 ^ e ≤ 2 ^ (e - 1)) by lia. nia.
Qed.

(** X11. The cells are correctly rounded: whenever [transform_to_vla]
    returns a matrix for a non-empty batch of bit strings of common length
    and [k ≥ 1], each cell differs from the value of its group by at most
    that value divided by [2 ^ 53]. *)
Theorem stored_cells_relative_error (smiles : list str) (L k : Z)
    (m : matrix) :
  smiles ≠ [] → bit_batch L smiles → 1 ≤ k →
  transform_to_vla smiles k = Ok m →
  Forall2 (λ row r,
    Forall2 (λ i v, 2 ^ 53 * Z.abs (v - group_value row k i)
                    ≤ group_value row k i)
            (range 0 (L `div` k)) r) smiles m.
Proof.
  intros Hne Hb Hk Hm.
  rewrite (transform_bit_batch smiles L k) in Hm by done.
  apply mapM_Ok_Forall2 in Hm.
  pose proof (Z.mul_div_le L k ltac:(lia)) as Hdiv.
  apply Forall2_same_length_lookup_2; [by eapply Forall2_length|].
  intros i1 row r Hrow Hr.
  pose proof (Forall2_lookup_lr _ _ _ _ _ _ Hm Hrow Hr) as Hcells.
  apply mapM_Ok_Forall2 in Hcells.
  destruct (bit_batch_lookup _ _ _ _ Hb Hrow) as [Hbits Hlen].
  apply Forall2_same_length_lookup_2; [by eapply Forall2_length|].
  intros j i v Hi Hv.
  pose proof (Forall2_lookup_lr _ _ _ _ _ _ Hcells Hi Hv) as Hf.
  unfold range in Hi. apply lookup_seqZ in Hi as [-> Hj].
  apply float_of_int_error; [|done].
  apply (group_value_bound row k); [done|lia..|nia].
Qed.

Lemma stored_cells_relative_error_witness :
  Forall2 (λ row r,
    Forall2 (λ i v, 2 ^ 53 * Z.abs (v - group_value row 56 i)
                    ≤ group_value row 56 i)
            (range 0 (56 `div` 56)) r)
    [smiles_to_binary str_heptane 56] [[18932779609965380]].
Proof.
  apply (stored_cells_relative_error [smiles_to_binary str_heptane 56] 56 56).
  - discriminate.
  - constructor; [|constructor]. split; [|reflexivity].
    unfold bit_string. compute_done.
  - lia.
  - by vm_compute.
Defined.

(** ** Reading the lines of a text file *)

Lemma splitlines_from_boundary (cur : str) (c : char) (rest : str) :
  c ∈ line_boundaries → c ≠ chr_cr →
  splitlines_from cur (c :: rest) = cur :: splitlines_from [] rest.
Proof.
  intros Hc Hcr. simpl. rewrite bool_decide_true by done. f_equal.
  destruct rest as [|d rest']; [done|].
  by rewrite bool_decide_false by (intros [? _]; done).
Qed.

Lemma splitlines_from_universal (n : nat) :
  ∀ (s : str) (cur : str),
    (length s ≤ n)%nat →
    splitlines_from cur (universal_newlines s) = splitlines_from cur s.
Proof.
  induction n as [|n IH]; intros s cur Hlen.
  { destruct s; [done|simpl in Hlen; lia]. }
  destruct s as [|c rest]; [done|]. simpl in Hlen.
  cbn [universal_newlines]. case_bool_decide as Hcr.
  - subst c. rewrite splitlines_from_boundary; [|compute_done|done].
    cbn [splitlines_from]. rewrite bool_decide_true by compute_done. f_equal.
    destruct rest as [|d rest']; [done|]. simpl in Hlen.
    case_bool_decide as Hd.
    + subst d. rewrite bool_decide_true by done. apply IH. lia.
    + rewrite bool_decide_false by (intros [_ ?]; done). apply IH. simpl. lia.
  - destruct (decide (c ∈ line_boundaries)) as [Hc|Hc].
    + rewrite !splitlines_from_boundary by done. f_equal. apply IH. lia.
    + cbn [splitlines_from]. rewrite bool_decide_false by done. apply IH. lia.
Qed.

(** X12. The newline translation of text mode does not change the lines
    [process_smiles_file] reads: the list of lines of a file is
    [splitlines] of its text, whether its lines end with "\n", "\r\n" or
    "\r". *)
Theorem read_smiles_list_splitlines (content : str) :
  read_smiles_list content = splitlines content.
Proof.
  unfold read_smiles_list, splitlines.
  by apply (splitlines_from_universal (length content)).
Qed.

Lemma splitlines_from_line (l : str) :
  Forall (λ c, c ∉ line_boundaries) l →
  ∀ (cur rest : str),
    splitlines_from cur (l ++ chr_nl :: rest)
    = (cur ++ l) :: splitlines_from [] rest.
Proof.
  induction 1 as [|c l Hc _ IH]; intros cur rest.
  - rewrite app_nil_r. apply splitlines_from_boundary; [compute_done|done].
  - cbn [app splitlines_from]. rewrite bool_decide_false by done.
    by rewrite IH, <- app_assoc.
Qed.

(** X13. A text made of lines that each end with "\n" is read as these
    lines, one row for each: for lines without line-boundary characters,
    the list read from their concatenation is the list of the lines. *)
Theorem read_smiles_list_lines (lines : list str) :
  Forall (Forall (λ c, c ∉ line_boundaries)) lines →
  read_smiles_list (mjoin ((λ l, l ++ [chr_nl]) <$> lines)) = lines.
Proof.
  intros Hlines. unfold read_smiles_list, splitlines.
  rewrite (splitlines_from_universal (length (mjoin _))) by done.
  induction Hlines as [|l lines Hl _ IH]; [done|].
  csimpl. rewrite <- app_assoc. cbn [app].
  by rewrite splitlines_from_line, IH.
Qed.

Lemma read_smiles_list_lines_witness :
  read_smiles_list (mjoin ((λ l, l ++ [chr_nl]) <$> [str_A; []; str_AB]))
  = [str_A; []; str_AB].
Proof.
  apply (read_smiles_list_lines [str_A; []; str_AB]).
  repeat constructor; compute_done.
Defined.

Lemma universal_newlines_nil (s : str) : universal_newlines s = [] → s = [].
Proof. destruct s as [|c rest]; [done|]. simpl. by case_bool_decide. Qed.

Lemma splitlines_from_nil (s cur : str) :
  splitlines_from cur s = [] → cur = [] ∧ s = [].
Proof.
  revert cur. induction s as [|c rest IH]; intros cur.
  - simpl. by destruct cur.
  - simpl. case_bool_decide; [done|]. intros [Hcur _]%IH.
    by destruct cur.
Qed.

Lemma write_vla_log (binary_sequences : list str) (divisors : list Z)
    (log : list artifact) :
  ∃ more, fst (write_vla binary_sequences divisors log) = log ++ more.
Proof.
  revert log. induction divisors as [|k ks IH]; intros log; simpl.
  - exists []. by rewrite app_nil_r.
  - destruct (transform_to_vla _ _) as [m|e].
    + destruct (IH (log ++ [VlaOutput k m])) as [more Hmore].
      exists (VlaOutput k m :: more). by rewrite Hmore, <- app_assoc.
    + exists []. by rewrite app_nil_r.
Qed.

(** X14. A run writes nothing only on a file without any character: the
    run of [process_smiles_file] on the text of the input file ends with
    no file written exactly when the text is empty; then [max] has raised
    [ValueError], and on any other text binary_output.dat is written
    first. *)
Theorem nothing_written_iff_empty_file (content : str) :
  (fst (process_smiles_file (read_smiles_list content)) = []
   ↔ content = [])
  ∧ (content = []
     ∧ process_smiles_file (read_smiles_list content) = ([], Err ValueError)
     ∨ ∃ enc more,
         encode (read_smiles_list content) = Ok enc
         ∧ fst (process_smiles_file (read_smiles_list content))
           = BinaryOutput enc :: more).
Proof.
  destruct (decide (content = [])) as [->|Hne].
  { split; [done|]. by left. }
  assert (∃ enc more,
       encode (read_smiles_list content) = Ok enc
       ∧ fst (process_smiles_file (read_smiles_list content))
         = BinaryOutput enc :: more) as Hwritten.
  { assert (read_smiles_list content ≠ []) as Hlines.
    { unfold read_smiles_list, splitlines.
      intros [_ H%universal_newlines_nil]%splitlines_from_nil. done. }
    destruct (encode_nonempty _ Hlines) as (M & _ & Henc).
    unfold process_smiles_file. rewrite Henc. eexists. cbv zeta.
    destruct (getitem _ 0) as [s0|e]; [|by exists []].
    destruct (write_vla_log
                ((λ smiles, smiles_to_binary smiles (M * 8))
                   <$> read_smiles_list content)
                (find_divisors (len s0))
                [BinaryOutput ((λ smiles, smiles_to_binary smiles (M * 8))
                                 <$> read_smiles_list content)])
      as [more Hmore].
    exists more. split; [done|]. by rewrite Hmore. }
  split; [|by right].
  split; [|done].
  intros Hfst. destruct Hwritten as (enc & more & _ & Hlog). congruence.
Qed.

(** ** Reading back binary_output.dat *)

Lemma readlines_from_line (l : str) :
  Forall (λ c, c ≠ chr_nl) l →
  ∀ (cur rest : str),
    readlines_from cur (l ++ chr_nl :: rest)
    = (cur ++ l ++ [chr_nl]) :: readlines_from [] rest.
Proof.
  induction 1 as [|c l Hc _ IH]; intros cur rest.
  - reflexivity.
  - cbn [app readlines_from]. rewrite bool_decide_false by done.
    by rewrite IH, <- app_assoc.
Qed.

Lemma universal_newlines_id (s : str) :
  Forall (λ c, c ≠ chr_cr) s → universal_newlines s = s.
Proof.
  induction 1 as [|c s Hc _ IH]; [done|].
  simpl. rewrite bool_decide_false by done. by rewrite IH.
Qed.

Lemma lstrip_id (s : str) :
  Forall (λ c, c ∉ whitespace) s → lstrip s = s.
Proof.
  destruct 1 as [|c s Hc _]; [done|].
  simpl. by rewrite bool_decide_false by done.
Qed.

Lemma strip_line (l : str) :
  Forall (λ c, c ∉ whitespace) l → strip (l ++ [chr_nl]) = l.
Proof.
  intros Hl. unfold strip.
  assert (lstrip (l ++ [chr_nl]) = if l is [] then [] else l ++ [chr_nl])
    as ->.
  { destruct Hl as [|c l Hc _]; [done|].
    simpl. by rewrite bool_decide_false by done. }
  destruct l as [|c l]; [done|].
  rewrite reverse_snoc. cbn [lstrip].
  rewrite bool_decide_true by compute_done.
  rewrite lstrip_id by (by apply Forall_reverse).
  apply reverse_involutive.
Qed.

Lemma bit_not_whitespace (s : str) :
  bit_string s →
  Forall (λ c, (c ∉ whitespace) ∧ c ≠ chr_nl ∧ c ≠ chr_cr) s.
Proof.
  intros Hs. eapply Forall_impl; [exact Hs|].
  intros c [->| ->]; split_and!; (compute_done || done).
Qed.

Lemma read_binary_smiles_bit_strings (seqs : list str) :
  Forall bit_string seqs →
  read_binary_smiles (binary_file_text seqs) = seqs.
Proof.
  intros Hseqs. unfold read_binary_smiles, binary_file_text.
  rewrite universal_newlines_id; last first.
  { induction Hseqs as [|s seqs Hs _ IH]; csimpl; [constructor|].
    rewrite <- app_assoc. apply Forall_app. split; [|by constructor].
    eapply Forall_impl; [exact (bit_not_whitespace s Hs)|]. by intros c (_&_&?). }
  unfold readlines. induction Hseqs as [|s seqs Hs _ IH]; [done|].
  csimpl. rewrite <- app_assoc. cbn [app].
  pose proof (bit_not_whitespace s Hs) as Hws.
  rewrite readlines_from_line
    by (eapply Forall_impl; [exact Hws|]; by intros c (_&?&_)).
  rewrite fmap_cons, IH. f_equal. cbn [app].
  apply strip_line. eapply Forall_impl; [exact Hws|]. by intros c (?&_).
Qed.

(** X15. [read_binary_smiles] reads back what [process_smiles_file]
    writes to binary_output.dat: for every batch that is encoded, reading
    the text of the written file gives the encoded batch again. *)
Theorem read_binary_smiles_round_trip (raw enc : list str) :
  encode raw = Ok enc →
  read_binary_smiles (binary_file_text enc) = enc.
Proof.
  intros Henc. apply read_binary_smiles_bit_strings.
  destruct raw as [|s raw]; [done|].
  destruct (encode_nonempty (s :: raw)) as (M & _ & Henc'); [done|].
  assert (enc = (λ smiles, smiles_to_binary smiles (M * 8)) <$> s :: raw)
    as -> by congruence.
  apply Forall_fmap, Forall_forall. intros s' _.
  apply bit_string_smiles_to_binary.
Qed.

Lemma read_binary_smiles_round_trip_witness :
  read_binary_smiles
    (binary_file_text [smiles_to_binary str_A 16; smiles_to_binary str_AB 16])
  = [smiles_to_binary str_A 16; smiles_to_binary str_AB 16].
Proof.
  apply (read_binary_smiles_round_trip [str_A; str_AB]). reflexivity.
Defined.

(** ** A wide character in a longest first line *)

Lemma find_divisors_head (n : Z) :
  0 < n → ∃ rest, find_divisors n = 1 :: rest.
Proof.
  intros Hn. rewrite find_divisors_filter. unfold range.
  rewrite seqZ_cons by lia. rewrite filter_cons.
  rewrite decide_True by apply Z.mod_1_r. by eexists.
Qed.

(** X16. A character above 255 in the first line, when that line is a
    longest one and another line has only code points up to 255, makes the
    rows unequal: [process_smiles_file] writes binary_output.dat and then
    ends with [IndexError] in the transform of the first divisor, before
    any matrix is written. *)
Theorem wide_first_line_IndexError (s0 s : str) (rest : list str) (c : char)
    (M : Z) :
  max_length (s0 :: rest) M → len s0 = M →
  c ∈ s0 → (255 < c)%N →
  s ∈ rest → byte_string s →
  process_smiles_file (s0 :: rest)
  = ([BinaryOutput ((λ smiles, smiles_to_binary smiles (M * 8))
                      <$> s0 :: rest)],
     Err IndexError).
Proof.
  intros HM Hlen0 Hc Hwide Hs Hbytes.
  destruct (encode_nonempty (s0 :: rest)) as (M' & HM' & Henc); [done|].
  rewrite (max_length_unique _ _ _ HM' HM) in Henc.
  set (enc := (λ smiles, smiles_to_binary smiles (M * 8)) <$> s0 :: rest)
    in *.
  unfold process_smiles_file. rewrite Henc.
  assert (enc !! 0%nat = Some (smiles_to_binary s0 (M * 8))) as H0 by done.
  rewrite (getitem_0 _ _ H0). cbv zeta.
  set (L0 := len (smiles_to_binary s0 (M * 8))).
  assert (8 * M < L0) as HL0.
  { unfold L0. rewrite length_smiles_to_binary.
    pose proof (length_join_format_08b_wide s0 c Hc Hwide).
    unfold len in *. lia. }
  assert (0 ≤ M) by (unfold len in Hlen0; lia).
  destruct (find_divisors_head L0) as [ks Hks]; [lia|]. rewrite Hks.
  assert (Forall bit_string enc) as Hbits.
  { apply Forall_fmap, Forall_forall. intros s' _.
    apply bit_string_smiles_to_binary. }
  assert (transform_to_vla enc 1 = Err IndexError) as Ht.
  { destruct (transform_to_vla enc 1) as [m|e] eqn:Ht.
    - exfalso.
      pose proof (transform_Ok_reads enc 1 _ ltac:(lia)
                    ltac:(by exists m) H0) as Hall.
      rewrite Forall_forall in Hall.
      assert (smiles_to_binary s (M * 8) ∈ enc) as Hin.
      { apply list_elem_of_fmap. exists s. split; [done|]. by right. }
      destruct (Hall _ Hin (Z.to_nat (8 * M))) as (d & Hd & _).
      { fold L0. rewrite Z.div_1_r. lia. }
      apply lookup_lt_Some in Hd. revert Hd.
      rewrite smiles_to_binary_bytes by done.
      rewrite length_app, length_replicate, length_join_expand8.
      destruct HM as [Hle _]. specialize (Hle s ltac:(by right)).
      unfold len in *. lia.
    - f_equal. by apply (transform_bit_strings_Err enc 1). }
  simpl. by rewrite Ht.
Qed.

Lemma wide_first_line_IndexError_witness :
  process_smiles_file ([256%N; 65%N] :: [str_A])
  = ([BinaryOutput ((λ smiles, smiles_to_binary smiles (2 * 8))
                      <$> [256%N; 65%N] :: [str_A])],
     Err IndexError).
Proof.
  apply (wide_first_line_IndexError [256%N; 65%N] str_A [str_A] 256%N 2).
  - split.
    + intros s Hs. apply elem_of_cons in Hs as [->|Hs]; [by vm_compute|].
      apply elem_of_cons in Hs as [->|Hs]; [by vm_compute|].
      by apply elem_of_nil in Hs.
    + exists [256%N; 65%N]. split; [left|done].
  - reflexivity.
  - left.
  - reflexivity.
  - left.
  - repeat constructor; unfold N.le; simpl; discriminate.
Defined.
